(** * PlayGuard HTML5 SDK: a shallow embedding of the transport, the
      dispatcher and the tap router

    The development follows the TypeScript sources:
    - [WSClient.ts]: the reconnecting WebSocket transport;
    - [PlayGuardSDK.ts]: the registry, the command dispatcher
      ([handleCommand], [respond]) and the tap router, which exists in two
      revisions: one that listens to [pointerdown] ([onPointerDown]) and one
      where the game reports taps itself ([notifyTapped]);
    - [types.ts]: the wire records.

    Conventions of the model.
    - A JavaScript number is an exact rational ([Q]): the rounding error of
      double arithmetic, NaN and the infinities are not modelled.  The result
      of [Math.sqrt] is kept as the square root of a rational ([Root]), which
      compares exactly; the real numbers of the Standard Library are loaded
      only to state that this order is the order of the real square roots.
    - A JavaScript string is a [string] of bytes; the white space removed by
      [trim] is the ASCII white space.
    - A host callback (getter, action, command handler) is given by what one
      invocation does: it returns a value or throws.  [await] of a rejected
      promise is a throw; callbacks are assumed to settle.
    - What a method does to the outside is a trace of [Effect]s, in program
      order, together with its completion ([Returns] or [Throws]). *)

From Stdlib Require Import String Ascii List Bool ZArith QArith Qround Lia Lqa.
From Stdlib Require Import Permutation.
From Stdlib Require Reals Qreals.
Import ListNotations.

Set Implicit Arguments.
Set Warnings "-register-all".

(** ** JavaScript values and built-ins *)

Module JS.

(** *** Numbers *)

(** [Math.round x]: the integer nearest to [x], halves rounded up. *)
Definition Math_round (x : Q) : Z := Qfloor (x + (1 # 2)).

(** [a < b] on numbers. *)
Definition Qltb (a b : Q) : bool := negb (Qle_bool b a).

(** A non-negative real number known by its square: [Math_sqrt q] is the
    square root of the rational [q]. *)
Record Root : Type := Math_sqrt { radicand : Q }.

(** The non-negative rational [q] as a [Root]. *)
Definition Root_of (q : Q) : Root := Math_sqrt (q * q).

(** [a < b] on non-negative reals: the square root is increasing. *)
Definition Root_ltb (a b : Root) : bool := Qltb (radicand a) (radicand b).

(** [Math.round] of a square root.  With [s] the integer square root of
    the integer part of the radicand, the root lies in [[s, s+1)]; it is
    rounded up exactly when it reaches [s + 1/2]. *)
Definition Math_round_root (r : Root) : Z :=
  let q := radicand r in
  let s := Z.sqrt (Qfloor q) in
  if Qltb q ((inject_Z s + (1 # 2)) * (inject_Z s + (1 # 2)))
  then s else (s + 1)%Z.

(** *** Strings *)

Local Open Scope string_scope.

Definition newline : ascii := "010"%char.

(** [s.split('\n')]: the pieces between the newlines; never empty. *)
Fixpoint split_newline (s : string) : list string :=
  match s with
  | EmptyString => [EmptyString]
  | String c rest =>
      if Ascii.eqb c newline then EmptyString :: split_newline rest
      else match split_newline rest with
           | piece :: pieces => String c piece :: pieces
           | [] => [String c EmptyString]
           end
  end.

(** White space and line terminators (ASCII): TAB, LF, VT, FF, CR, SP. *)
Definition is_white_space (c : ascii) : bool :=
  let n := nat_of_ascii c in
  ((9 <=? n) && (n <=? 13) || (n =? 32))%nat.

Fixpoint trim_start (s : string) : string :=
  match s with
  | EmptyString => EmptyString
  | String c rest => if is_white_space c then trim_start rest else s
  end.

Fixpoint trim_end (s : string) : string :=
  match s with
  | EmptyString => EmptyString
  | String c rest =>
      match trim_end rest with
      | EmptyString => if is_white_space c then EmptyString
                       else String c EmptyString
      | kept => String c kept
      end
  end.

(** [s.trim()] *)
Definition trim (s : string) : string := trim_end (trim_start s).

(** A string is truthy when it is not empty. *)
Definition truthy_string (s : string) : bool :=
  match s with EmptyString => false | _ => true end.

(** *** Values *)

(** The values that cross the wire or come back from a callback. *)
Inductive value : Type :=
| VUndefined
| VNull
| VBool (b : bool)
| VNum (n : Q)
| VStr (s : string)
| VArr (items : list value)
| VObj (fields : list (string * value)).

(** [o.key] on an object literal; [undefined] when the key is missing or
    [o] is not an object. *)
Fixpoint field (fields : list (string * value)) (key : string) : value :=
  match fields with
  | [] => VUndefined
  | (k, v) :: rest => if String.eqb k key then v else field rest key
  end.

(** [x ?? d] restricted to the absence it tests for. *)
Definition default_to (d x : value) : value :=
  match x with VUndefined => d | _ => x end.

Section Stringify.

(** [Number.prototype.toString] is left to the host. *)
Variable Number_toString : Q -> string.

Fixpoint join (sep : string) (l : list string) : string :=
  match l with
  | [] => ""
  | [s] => s
  | s :: rest => s ++ sep ++ join sep rest
  end.

(** [String(v)], also the conversion of a template literal. *)
Fixpoint String_ (v : value) : string :=
  match v with
  | VUndefined => "undefined"
  | VNull => "null"
  | VBool true => "true"
  | VBool false => "false"
  | VNum n => Number_toString n
  | VStr s => s
  | VArr items =>
      join "," (map (fun x => match x with
                              | VUndefined | VNull => ""
                              | _ => String_ x
                              end) items)
  | VObj _ => "[object Object]"
  end.

End Stringify.

(** *** Completions *)

(** How an invocation ends: normally with a value, or by throwing one
    (a rejected promise, once awaited, is a throw). *)
Inductive outcome (A : Type) : Type :=
| Returns (a : A)
| Throws (e : value).
Arguments Throws {A} e.

(** *** [Map<string, V>]: insertion-ordered, keys unique *)

Definition Map (V : Type) : Type := list (string * V).

(** [m.set(k, v)]: an existing key keeps its place and takes the new
    value; a new key goes last. *)
Fixpoint Map_set {V} (m : Map V) (k : string) (v : V) : Map V :=
  match m with
  | [] => [(k, v)]
  | (k', v') :: rest =>
      if String.eqb k' k then (k', v) :: rest
      else (k', v') :: Map_set rest k v
  end.

Fixpoint Map_get_string {V} (m : Map V) (k : string) : option V :=
  match m with
  | [] => None
  | (k', v) :: rest => if String.eqb k' k then Some v
                       else Map_get_string rest k
  end.

(** [m.get(k)] for a key of any type: only a string can be present. *)
Definition Map_get {V} (m : Map V) (k : value) : option V :=
  match k with
  | VStr s => Map_get_string m s
  | _ => None
  end.

Definition Map_keys {V} (m : Map V) : list string := map fst m.
Definition Map_values {V} (m : Map V) : list V := map snd m.
Definition Map_size {V} (m : Map V) : nat := length m.

End JS.

(** ** The wire records ([types.ts]) *)

Module Types.
Import JS.

(** Sent from PlayGuard to the game.  [parameters] is optional. *)
Record PlayGuardCommand : Type := {
  cmd_id : string;
  cmd_command : string;
  cmd_parameters : option (list (string * value))
}.

(** Sent from the game to PlayGuard.  [data] and [error] are optional
    fields: [None] is a field that is not there. *)
Record PlayGuardResponse : Type := {
  resp_id : string;
  resp_command : string;
  resp_success : bool;
  resp_data : option value;
  resp_error : option string
}.

(** An unsolicited notification [{type: 'event', event, data}]. *)
Record PlayGuardEvent : Type := {
  ev_event : string;
  ev_data : value
}.

(** What [WSClient.send] is given. *)
Inductive Message : Type :=
| Response (r : PlayGuardResponse)
| Event (e : PlayGuardEvent).

Record Position : Type := { x : Q; y : Q }.

Definition PropertyGetter : Type := unit -> outcome value.
Definition ActionHandler : Type := value -> outcome unit.
Definition CommandHandler : Type := value -> outcome value.

Record ElementDescriptor : Type := {
  name : string;
  getPosition : unit -> outcome (option Position)
}.

End Types.

(** ** The transport ([WSClient.ts]) *)

Module WSClient.
Import JS Types.
Local Open Scope string_scope.

(** A [WebSocket] object and a timer handle are known by their identity:
    the rank of their creation.  A socket that was never created reads as
    closed; a timer handle, whatever its rank, is truthy, as the handles
    of a browser are. *)
Definition Socket : Type := nat.
Definition Timer : Type := nat.

Inductive ReadyState : Type := CONNECTING | OPEN | CLOSING | CLOSED.

Definition ReadyState_eqb (a b : ReadyState) : bool :=
  match a, b with
  | CONNECTING, CONNECTING | OPEN, OPEN
  | CLOSING, CLOSING | CLOSED, CLOSED => true
  | _, _ => false
  end.

(** The fields of the class. *)
Record t : Type := {
  ws : option Socket;
  url : string;
  reconnectDelay : Q;
  reconnectTimer : option Timer;
  connected : bool;
  destroyed : bool;
  onMessage : option (PlayGuardCommand -> outcome unit);
  onConnected : option (unit -> outcome unit);
  onDisconnected : option (unit -> outcome unit)
}.

(** [new WSClient(url, reconnectDelay)] *)
Definition new (url : string) (reconnectDelay : Q) : t :=
  {| ws := None; url := url; reconnectDelay := reconnectDelay;
     reconnectTimer := None; connected := false; destroyed := false;
     onMessage := None; onConnected := None; onDisconnected := None |}.

(** The client together with the part of the browser it talks to: the
    sockets created so far with their state, whether the [WebSocket]
    constructor accepts the URL, the timers that are pending and the number
    of timers created. *)
Record World : Type := {
  client : t;
  sockets : list ReadyState;
  accepts_url : bool;
  pending : list Timer;
  timers : nat
}.

(** What the client does to the outside. *)
Inductive Output : Type :=
| NewWebSocket (s : Socket) (url : string)
| SocketSend (s : Socket) (payload : Message)
| SocketClose (s : Socket)
| SetTimeout (timer : Timer) (delay : Q)
| ClearTimeout (timer : Timer)
| ConsoleLog (text : string)
| ConsoleWarn (text : string) (line : string)
| ConsoleError (text : string)
| CallOnConnected
| CallOnDisconnected
| CallOnMessage (msg : PlayGuardCommand).

Definition set_client (w : World) (c : t) : World :=
  {| client := c; sockets := sockets w; accepts_url := accepts_url w;
     pending := pending w; timers := timers w |}.

Definition set_ws (c : t) (s : option Socket) : t :=
  {| ws := s; url := url c; reconnectDelay := reconnectDelay c;
     reconnectTimer := reconnectTimer c; connected := connected c;
     destroyed := destroyed c; onMessage := onMessage c;
     onConnected := onConnected c; onDisconnected := onDisconnected c |}.

Definition set_reconnectTimer (c : t) (timer : option Timer) : t :=
  {| ws := ws c; url := url c; reconnectDelay := reconnectDelay c;
     reconnectTimer := timer; connected := connected c;
     destroyed := destroyed c; onMessage := onMessage c;
     onConnected := onConnected c; onDisconnected := onDisconnected c |}.

Definition set_connected (c : t) (b : bool) : t :=
  {| ws := ws c; url := url c; reconnectDelay := reconnectDelay c;
     reconnectTimer := reconnectTimer c; connected := b;
     destroyed := destroyed c; onMessage := onMessage c;
     onConnected := onConnected c; onDisconnected := onDisconnected c |}.

Definition set_destroyed (c : t) (b : bool) : t :=
  {| ws := ws c; url := url c; reconnectDelay := reconnectDelay c;
     reconnectTimer := reconnectTimer c; connected := connected c;
     destroyed := b; onMessage := onMessage c;
     onConnected := onConnected c; onDisconnected := onDisconnected c |}.

Definition readyState (w : World) (s : Socket) : ReadyState :=
  nth s (sockets w) CLOSED.

Fixpoint set_nth {A} (l : list A) (n : nat) (a : A) : list A :=
  match l, n with
  | [], _ => []
  | _ :: rest, O => a :: rest
  | b :: rest, S m => b :: set_nth rest m a
  end.

Definition set_readyState (w : World) (s : Socket) (r : ReadyState) : World :=
  {| client := client w; sockets := set_nth (sockets w) s r;
     accepts_url := accepts_url w; pending := pending w;
     timers := timers w |}.

Definition remove_timer (timer : Timer) (l : list Timer) : list Timer :=
  filter (fun t' => negb (Nat.eqb t' timer)) l.

Definition is_pending (w : World) (timer : Timer) : bool :=
  existsb (Nat.eqb timer) (pending w).

(** [private _connect()].  The handlers installed on the new socket are
    [onopen], [onmessage], [onclose] and [onerror] below.  When the
    constructor throws, the [catch] logs and [this.ws] keeps its value. *)
Definition _connect (w : World) : World * list Output :=
  if destroyed (client w) then (w, [])
  else if accepts_url w then
    let s := length (sockets w) in
    ({| client := set_ws (client w) (Some s);
        sockets := (sockets w ++ [CONNECTING])%list;
        accepts_url := accepts_url w; pending := pending w;
        timers := timers w |},
     [NewWebSocket s (url (client w))])
  else (w, [ConsoleError "[PlayGuardSDK] WebSocket constructor error:"]).

(** [connect()] *)
Definition connect (w : World) : World * list Output :=
  match ws (client w) with
  | Some _ => (w, [])
  | None => if destroyed (client w) then (w, []) else _connect w
  end.

(** [this.ws.onopen]; an exception of the observer leaves the handler. *)
Definition onopen (w : World) : World * list Output :=
  (set_client w (set_connected (client w) true),
   ConsoleLog "[PlayGuardSDK] Connected to PlayGuard at"
   :: match onConnected (client w) with
      | Some _ => [CallOnConnected]
      | None => []
      end).

Section Parse.

(** [JSON.parse] read at the type the source gives its result; [None] is
    a [SyntaxError]. *)
Variable JSON_parse : string -> option PlayGuardCommand.

(** The body of the [for] loop of [onmessage] for one line. *)
Definition onmessage_line (c : t) (line : string) : list Output :=
  if negb (truthy_string (trim line)) then []
  else match JSON_parse line with
       | Some msg =>
           match onMessage c with
           | Some handler =>
               CallOnMessage msg ::
               match handler msg with
               | Returns _ => []
               | Throws _ =>
                   [ConsoleWarn "[PlayGuardSDK] Failed to parse message:" line]
               end
           | None => []
           end
       | None => [ConsoleWarn "[PlayGuardSDK] Failed to parse message:" line]
       end.

(** [this.ws.onmessage], given [String(event.data)]. *)
Definition onmessage (c : t) (data : string) : list Output :=
  flat_map (onmessage_line c) (split_newline data).

End Parse.

(** [this.ws.onclose]: when the observer throws the handler ends there. *)
Definition onclose (w : World) : World * list Output :=
  let c := set_ws (set_connected (client w) false) None in
  let log := ConsoleLog "[PlayGuardSDK] Disconnected. Retrying..." in
  let schedule (out : list Output) : World * list Output :=
    if negb (destroyed c) then
      let timer := timers w in
      ({| client := set_reconnectTimer c (Some timer);
          sockets := sockets w; accepts_url := accepts_url w;
          pending := (pending w ++ [timer])%list; timers := S (timers w) |},
       (out ++ [SetTimeout timer (reconnectDelay c)])%list)
    else (set_client w c, out) in
  match onDisconnected c with
  | None => schedule [log]
  | Some observer =>
      match observer tt with
      | Returns _ => schedule [log; CallOnDisconnected]
      | Throws _ => (set_client w c, [log; CallOnDisconnected])
      end
  end.

(** [send(response)] *)
Definition send (w : World) (response : Message) : World * list Output :=
  match ws (client w) with
  | Some s =>
      if ReadyState_eqb (readyState w s) OPEN
      then (w, [SocketSend s response])
      else (w, [])
  | None => (w, [])
  end.

(** [isConnected()] *)
Definition isConnected (w : World) : bool := connected (client w).

(** [socket.close()]: starts the closing handshake of a socket that is
    not closing or closed already. *)
Definition socket_close (w : World) (s : Socket) : World :=
  match readyState w s with
  | CONNECTING | OPEN => set_readyState w s CLOSING
  | CLOSING | CLOSED => w
  end.

(** [destroy()] *)
Definition destroy (w : World) : World * list Output :=
  let c1 := set_destroyed (client w) true in
  let '(c2, pending2, out2) :=
    match reconnectTimer c1 with
    | Some timer =>
        (set_reconnectTimer c1 None, remove_timer timer (pending w),
         [ClearTimeout timer])
    | None => (c1, pending w, [])
    end in
  let w2 := {| client := c2; sockets := sockets w;
               accepts_url := accepts_url w; pending := pending2;
               timers := timers w |} in
  let '(w3, out3) :=
    match ws c2 with
    | Some s => (socket_close w2 s, [SocketClose s])
    | None => (w2, [])
    end in
  (set_client w3 (set_connected (set_ws (client w3) None) false),
   (out2 ++ out3)%list).

(** What can happen to a client: a call of a public method, an event of
    one of its sockets, or a timer that comes due. *)
Inductive Input : Type :=
| Call_connect
| Call_send (response : Message)
| Call_destroy
| Socket_open (s : Socket)
| Socket_message (s : Socket) (data : string)
| Socket_close (s : Socket)
| Socket_error (s : Socket)
| Timer_due (timer : Timer).

Section Run.

Variable JSON_parse : string -> option PlayGuardCommand.

(** One turn of the event loop.  The browser delivers [open] to a
    connecting socket, [message] to an open one, [close] once to a socket
    that is not closed, and runs a timer only while it is pending. *)
Definition step (w : World) (i : Input) : World * list Output :=
  match i with
  | Call_connect => connect w
  | Call_send response => send w response
  | Call_destroy => destroy w
  | Socket_open s =>
      match readyState w s with
      | CONNECTING => onopen (set_readyState w s OPEN)
      | _ => (w, [])
      end
  | Socket_message s data =>
      match readyState w s with
      | OPEN => (w, onmessage JSON_parse (client w) data)
      | _ => (w, [])
      end
  | Socket_close s =>
      match readyState w s with
      | CLOSED => (w, [])
      | _ => onclose (set_readyState w s CLOSED)
      end
  | Socket_error s => (w, [])
  | Timer_due timer =>
      if is_pending w timer then
        _connect {| client := client w; sockets := sockets w;
                    accepts_url := accepts_url w;
                    pending := remove_timer timer (pending w);
                    timers := timers w |}
      else (w, [])
  end.

Fixpoint run (w : World) (inputs : list Input) : World * list Output :=
  match inputs with
  | [] => (w, [])
  | i :: rest =>
      let '(w1, out1) := step w i in
      let '(w2, out2) := run w1 rest in
      (w2, (out1 ++ out2)%list)
  end.

End Run.

(** The test [!line.trim()] of [onmessage]. *)
Definition blank (line : string) : bool := negb (truthy_string (trim line)).

(** The messages handed to [onMessage], and the lines reported by
    [console.warn], in order. *)
Definition delivered (out : list Output) : list PlayGuardCommand :=
  flat_map (fun o => match o with CallOnMessage msg => [msg] | _ => [] end)
           out.

Definition warned (out : list Output) : list string :=
  flat_map (fun o => match o with ConsoleWarn _ line => [line] | _ => [] end)
           out.

(** The payloads written to sockets, and the payloads [send] was called
    with, in order. *)
Definition written (out : list Output) : list Message :=
  flat_map (fun o => match o with SocketSend _ m => [m] | _ => [] end) out.

Definition requested (inputs : list Input) : list Message :=
  flat_map (fun i => match i with Call_send m => [m] | _ => [] end) inputs.

(** [l] is [l'] with some of its items left out. *)
Inductive subsequence {A : Type} : list A -> list A -> Prop :=
| subsequence_nil : subsequence [] []
| subsequence_keep (a : A) (l l' : list A) :
    subsequence l l' -> subsequence (a :: l) (a :: l')
| subsequence_drop (a : A) (l l' : list A) :
    subsequence l l' -> subsequence l (a :: l').

(** The delays of the timers scheduled and the URLs of the sockets
    opened. *)
Definition delays (out : list Output) : list Q :=
  flat_map (fun o => match o with SetTimeout _ d => [d] | _ => [] end) out.

Definition urls (out : list Output) : list string :=
  flat_map (fun o => match o with NewWebSocket _ u => [u] | _ => [] end) out.

(** An output that opens no socket, schedules no reconnect and writes to
    no socket. *)
Definition quiet (o : Output) : bool :=
  match o with
  | NewWebSocket _ _ | SetTimeout _ _ | SocketSend _ _ => false
  | _ => true
  end.

(** The fields [destroy()] leaves behind. *)
Definition torn_down (w : World) : Prop :=
  destroyed (client w) = true
  /\ ws (client w) = None
  /\ reconnectTimer (client w) = None.

End WSClient.

(** ** The registry, the dispatcher and the tap router
       ([PlayGuardSDK.ts]) *)

Module PlayGuardSDK.
Import JS Types.
Local Open Scope string_scope.

(** *** The platform: the document and its events *)

(** A node of the document, known by its identity. *)
Definition Node : Type := nat.

(** What the SDK asks of the document: [node.tagName], [a.contains(b)]
    (true when [b] is [a] or a descendant of [a]) and
    [document.elementFromPoint(x, y)]. *)
Record Document : Type := {
  tagName : Node -> string;
  contains : Node -> Node -> bool;
  elementFromPoint : Q -> Q -> option Node
}.

(** The init dictionary of a pointer or mouse event. *)
Record EventInit : Type := {
  bubbles : bool;
  clientX : Q;
  clientY : Q
}.

(** [new PointerEvent(type, opts)] and [new MouseEvent(type, opts)]. *)
Inductive DomEvent : Type :=
| PointerEvent (type : string) (opts : EventInit)
| MouseEvent (type : string) (opts : EventInit).

Definition event_init (e : DomEvent) : EventInit :=
  match e with PointerEvent _ opts | MouseEvent _ opts => opts end.

(** *** Effects *)

(** What the SDK does to its collaborators, in program order: calls of the
    registered callbacks, queries and events of the document, and messages
    handed to [wsClient.send]. *)
Inductive Effect : Type :=
| CallProperty (name : string)
| CallAction (name : string) (args : value)
| CallCommand (name : string) (param : value)
| GetPosition (name : string)
| ElementFromPoint (px py : Q)
| DispatchEvent (target : Node) (e : DomEvent)
| AddPointerDownListener
| WsSend (m : Message).

(** A computation: the effects it performed and how it completed.  For an
    [async] method [Throws] is a rejected promise. *)
Definition M (A : Type) : Type := (list Effect * outcome A)%type.

Definition ret {A} (a : A) : M A := ([], Returns a).

Definition bind {A B} (m : M A) (k : A -> M B) : M B :=
  match m with
  | (tr, Returns a) => let (tr', r) := k a in ((tr ++ tr')%list, r)
  | (tr, Throws e) => (tr, Throws e)
  end.

(** An effect that cannot fail. *)
Definition perform (e : Effect) : M unit := ([e], Returns tt).

(** A call of a host callback, which completes as the callback does. *)
Definition invoke {A} (e : Effect) (completion : outcome A) : M A :=
  ([e], completion).

(** [try { body } catch (e) { handler e }] *)
Definition try_catch {A} (body : M A) (handler : value -> M A) : M A :=
  match body with
  | (tr, Throws e) => let (tr', r) := handler e in ((tr ++ tr')%list, r)
  | (tr, Returns a) => (tr, Returns a)
  end.

Declare Scope sdk_scope.
Delimit Scope sdk_scope with sdk.
Notation "v <- m ;; k" := (bind m (fun v => k))
  (at level 61, m at next level, right associativity) : sdk_scope.
Notation "m ;; k" := (bind m (fun _ => k))
  (at level 61, right associativity) : sdk_scope.
Local Open Scope sdk_scope.

Definition trace {A} (m : M A) : list Effect := fst m.
Definition completion {A} (m : M A) : outcome A := snd m.

(** What a trace shows of each kind of effect. *)
Definition sent (tr : list Effect) : list Message :=
  flat_map (fun e => match e with WsSend m => [m] | _ => [] end) tr.

Definition responses (tr : list Effect) : list PlayGuardResponse :=
  flat_map (fun m => match m with Response r => [r] | Event _ => [] end)
           (sent tr).

Definition events (tr : list Effect) : list PlayGuardEvent :=
  flat_map (fun m => match m with Event e => [e] | Response _ => [] end)
           (sent tr).

Definition dispatched (tr : list Effect) : list (Node * DomEvent) :=
  flat_map (fun e => match e with
                     | DispatchEvent target ev => [(target, ev)]
                     | _ => []
                     end) tr.

Definition positions_read (tr : list Effect) : list string :=
  flat_map (fun e => match e with GetPosition n => [n] | _ => [] end) tr.

Definition hit_tests (tr : list Effect) : list (Q * Q) :=
  flat_map (fun e => match e with
                     | ElementFromPoint px py => [(px, py)]
                     | _ => []
                     end) tr.

(** [items.map(f)] for an [f] with effects. *)
Fixpoint map_M {A B} (f : A -> M B) (items : list A) : M (list B) :=
  match items with
  | [] => ret []
  | a :: rest =>
      b <- f a ;;
      bs <- map_M f rest ;;
      ret (b :: bs)
  end.

(** *** The registry *)

Record t : Type := {
  properties : Map PropertyGetter;
  actions : Map ActionHandler;
  commands : Map CommandHandler;
  elements : Map ElementDescriptor;
  clickMonitoringActive : bool
}.

Definition empty : t :=
  {| properties := []; actions := []; commands := []; elements := [];
     clickMonitoringActive := false |}.

Definition registerProperty (sdk : t) (name : string) (getter : PropertyGetter)
  : t :=
  {| properties := Map_set (properties sdk) name getter;
     actions := actions sdk; commands := commands sdk;
     elements := elements sdk;
     clickMonitoringActive := clickMonitoringActive sdk |}.

Definition registerAction (sdk : t) (name : string) (fn : ActionHandler) : t :=
  {| properties := properties sdk;
     actions := Map_set (actions sdk) name fn; commands := commands sdk;
     elements := elements sdk;
     clickMonitoringActive := clickMonitoringActive sdk |}.

Definition registerCommand (sdk : t) (name : string) (fn : CommandHandler)
  : t :=
  {| properties := properties sdk; actions := actions sdk;
     commands := Map_set (commands sdk) name fn;
     elements := elements sdk;
     clickMonitoringActive := clickMonitoringActive sdk |}.

(** [registerElement] of the revision that reports taps explicitly. *)
Definition registerElement (sdk : t) (name : string)
    (getPosition : unit -> outcome (option Position)) : t :=
  {| properties := properties sdk; actions := actions sdk;
     commands := commands sdk;
     elements := Map_set (elements sdk) name
                   {| Types.name := name; Types.getPosition := getPosition |};
     clickMonitoringActive := clickMonitoringActive sdk |}.

(** [registerElement] of the revision that listens to [pointerdown]: the
    listener is installed with the first element. *)
Definition registerElement_monitoring (sdk : t) (name : string)
    (getPosition : unit -> outcome (option Position)) : t * list Effect :=
  let sdk1 := registerElement sdk name getPosition in
  if negb (clickMonitoringActive sdk1) then
    ({| properties := properties sdk1; actions := actions sdk1;
        commands := commands sdk1; elements := elements sdk1;
        clickMonitoringActive := true |}, [AddPointerDownListener])
  else (sdk1, []).

(** *** Messages to PlayGuard *)

(** [private sendEvent(event, data)] *)
Definition sendEvent (event : string) (data : value) : M unit :=
  perform (WsSend (Event {| ev_event := event; ev_data := data |})).

(** [private respond(id, command, success, data?, error?)]: an argument
    that is [undefined] gives no field. *)
Definition respond (id command : string) (success : bool)
    (data : value) (error : option string) : M unit :=
  let resp :=
    {| resp_id := id;
       resp_command := command;
       resp_success := success;
       resp_data := match data with VUndefined => None | _ => Some data end;
       resp_error := error |} in
  perform (WsSend (Response resp)).

(** [notifyTapped(name)]; [sdk] is [this], which the method does not
    read. *)
Definition notifyTapped (sdk : t) (name : string) : M unit :=
  sendEvent "elementTapped"
    (VObj [("element", VStr name); ("matchType", VStr "explicit")]).

(** [log(message, level = 'info')] *)
Definition log (sdk : t) (message : string) (level : option string) : M unit :=
  sendEvent "logMessage"
    (VObj [("message", VStr message);
           ("level", VStr match level with Some l => l | None => "info" end)]).

(** *** The tap router ([onPointerDown]) *)

Definition number (n : Z) : value := VNum (inject_Z n).

Section Router.

Variable doc : Document.

Definition hit_test (px py : Q) : M (option Node) :=
  invoke (ElementFromPoint px py) (Returns (elementFromPoint doc px py)).

Definition is_canvas (n : Node) : bool := String.eqb (tagName doc n) "CANVAS".

(** The test of the DOM branch on the node at the element's centre. *)
Definition dom_match (elAtCenter tapped : Node) : bool :=
  Nat.eqb elAtCenter tapped || contains doc elAtCenter tapped
  || contains doc tapped elAtCenter.

Definition dom_event (name : string) (cx cy : Q) (pos : Position) : value :=
  VObj [("element", VStr name);
        ("matchType", VStr "dom");
        ("tapX", number (Math_round cx));
        ("tapY", number (Math_round cy));
        ("elementX", number (Math_round (x pos)));
        ("elementY", number (Math_round (y pos)))].

(** The [for] loop of the DOM branch; [ret tt] after [sendEvent] is the
    [return] that ends the handler. *)
Fixpoint dom_loop (cx cy : Q) (tapped : Node)
    (entries : list (string * ElementDescriptor)) : M unit :=
  match entries with
  | [] => ret tt
  | (name, el) :: rest =>
      pos <- invoke (GetPosition name) (getPosition el tt) ;;
      match pos with
      | None => dom_loop cx cy tapped rest
      | Some pos =>
          elAtCenter <- hit_test (x pos) (y pos) ;;
          match elAtCenter with
          | None => dom_loop cx cy tapped rest
          | Some elAtCenter =>
              if is_canvas elAtCenter then dom_loop cx cy tapped rest
              else if dom_match elAtCenter tapped then
                sendEvent "elementTapped" (dom_event name cx cy pos)
              else dom_loop cx cy tapped rest
          end
      end
  end.

Definition THRESHOLD : Q := 35.

(** The three variables of the canvas branch. *)
Record Closest : Type := {
  closestName : option string;
  closestDist : Root;
  closestPos : option Position
}.

Definition distance (pos : Position) (cx cy : Q) : Root :=
  Math_sqrt ((x pos - cx) ^ 2 + (y pos - cy) ^ 2)%Q.

(** The [for] loop of the canvas branch. *)
Fixpoint canvas_loop (cx cy : Q)
    (entries : list (string * ElementDescriptor)) (st : Closest) : M Closest :=
  match entries with
  | [] => ret st
  | (name, el) :: rest =>
      pos <- invoke (GetPosition name) (getPosition el tt) ;;
      match pos with
      | None => canvas_loop cx cy rest st
      | Some pos =>
          let dist := distance pos cx cy in
          if Root_ltb dist (closestDist st) then
            canvas_loop cx cy rest
              {| closestName := Some name; closestDist := dist;
                 closestPos := Some pos |}
          else canvas_loop cx cy rest st
      end
  end.

Definition canvas_event (name : string) (cx cy : Q) (pos : Position)
    (dist : Root) : value :=
  VObj [("element", VStr name);
        ("matchType", VStr "canvas");
        ("tapX", number (Math_round cx));
        ("tapY", number (Math_round cy));
        ("elementX", number (Math_round (x pos)));
        ("elementY", number (Math_round (y pos)));
        ("dist", number (Math_round_root dist))].

(** [private onPointerDown(e)] *)
Definition onPointerDown (sdk : t) (e : DomEvent) : M unit :=
  if Nat.eqb (Map_size (elements sdk)) 0 then ret tt
  else
    let cx := clientX (event_init e) in
    let cy := clientY (event_init e) in
    tapped <- hit_test cx cy ;;
    match tapped with
    | None => ret tt
    | Some tapped =>
        if negb (is_canvas tapped) then
          dom_loop cx cy tapped (elements sdk)
        else
          st <- canvas_loop cx cy (elements sdk)
                  {| closestName := None; closestDist := Root_of THRESHOLD;
                     closestPos := None |} ;;
          match closestName st with
          | Some name =>
              match closestPos st with
              | Some pos =>
                  sendEvent "elementTapped"
                    (canvas_event name cx cy pos (closestDist st))
              | None => ([], Throws (VStr "TypeError"))
              end
          | None => ret tt
          end
    end.

(** The words of the two strategies.  The node at the position of [el]
    is an addressable node, not a canvas; two nodes are related when they
    are the same or one contains the other; a candidate of the canvas
    branch is an element whose getter returns a position. *)
Definition resolves_to (el : ElementDescriptor) (pos : Position)
    (node : Node) : Prop :=
  getPosition el tt = Returns (Some pos)
  /\ elementFromPoint doc (x pos) (y pos) = Some node
  /\ is_canvas node = false.

Definition related (a b : Node) : Prop :=
  a = b \/ contains doc a b = true \/ contains doc b a = true.

Definition dom_hit (tapped : Node) (el : ElementDescriptor) (pos : Position)
  : Prop :=
  exists node, resolves_to el pos node /\ related node tapped.

End Router.

Definition candidates (entries : list (string * ElementDescriptor))
  : list (string * Position) :=
  flat_map (fun entry =>
              match getPosition (snd entry) tt with
              | Returns (Some pos) => [(fst entry, pos)]
              | _ => []
              end) entries.

(** [a < b] and [a <= b] for the distances of two positions to the tap,
    and [a < THRESHOLD]. *)
Definition nearer (cx cy : Q) (a b : Position) : Prop :=
  Root_ltb (distance a cx cy) (distance b cx cy) = true.

Definition not_farther (cx cy : Q) (a b : Position) : Prop :=
  Root_ltb (distance b cx cy) (distance a cx cy) = false.

Definition within_threshold (cx cy : Q) (a : Position) : Prop :=
  Root_ltb (distance a cx cy) (Root_of THRESHOLD) = true.

(** The invariant of the canvas loop, [cs] being the candidates met so
    far.  Either nothing is chosen, the bound is still the threshold and
    no candidate met is within it; or the chosen candidate is within the
    threshold, strictly nearer than the candidates met before it and not
    farther than those met after it. *)
Definition canvas_invariant (cx cy : Q) (cs : list (string * Position))
    (st : Closest) : Prop :=
  match closestName st with
  | None =>
      closestPos st = None
      /\ closestDist st = Root_of THRESHOLD
      /\ (forall n p, In (n, p) cs -> ~ within_threshold cx cy p)
  | Some name =>
      exists pos before after,
        closestPos st = Some pos
        /\ closestDist st = distance pos cx cy
        /\ within_threshold cx cy pos
        /\ cs = (before ++ (name, pos) :: after)%list
        /\ (forall n p, In (n, p) before -> nearer cx cy pos p)
        /\ (forall n p, In (n, p) after -> not_farther cx cy pos p)
  end.

(** *** The dispatcher ([handleCommand]) *)

Section Dispatcher.

Variable Number_toString : Q -> string.
Variable doc : Document.

Local Abbreviation String_ := (JS.String_ Number_toString).

(** [parameters?.key], which is also [(parameters || {}).key]. *)
Definition parameter (parameters : option (list (string * value)))
    (key : string) : value :=
  match parameters with
  | Some fields => field fields key
  | None => VUndefined
  end.

(** The object literal built for one element by [getUIElements], given
    the element's name and the position to show. *)
Definition ui_element (name : string) (shown : Position) : value :=
  VObj [("name", VStr name);
        ("path", VStr name);
        ("type", VStr "HTML5Element");
        ("active", VBool true);
        ("position", VObj [("x", VNum (x shown));
                           ("y", VNum (y shown));
                           ("z", VNum 0)])].

(** The callback of [map] in [getUIElements]:
    [el.getPosition() ?? { x: 0, y: 0 }]. *)
Definition describe_element (el : ElementDescriptor) : M value :=
  pos <- invoke (GetPosition (name el)) (getPosition el tt) ;;
  ret (ui_element (name el)
         match pos with
         | Some pos => pos
         | None => {| x := 0; y := 0 |}
         end).

Definition strings (l : list string) : value := VArr (map VStr l).

(** The three synthetic events of [tapElement]. *)
Definition tap (target : Node) (pos : Position) : M unit :=
  let opts := {| bubbles := true; clientX := x pos; clientY := y pos |} in
  perform (DispatchEvent target (PointerEvent "pointerdown" opts)) ;;
  perform (DispatchEvent target (PointerEvent "pointerup" opts)) ;;
  perform (DispatchEvent target (MouseEvent "click" opts)).

(** [private async handleCommand(cmd)] *)
Definition handleCommand (sdk : t) (cmd : PlayGuardCommand) : M unit :=
  let id := cmd_id cmd in
  let command := cmd_command cmd in
  let parameters := cmd_parameters cmd in
  if String.eqb command "ping" then
    respond id command true (VStr "pong") None
  else if String.eqb command "listCustomProperties" then
    respond id command true
      (VObj [("properties", strings (Map_keys (properties sdk)))]) None
  else if String.eqb command "listCustomActions" then
    respond id command true
      (VObj [("actions", strings (Map_keys (actions sdk)))]) None
  else if String.eqb command "listCustomCommands" then
    respond id command true
      (VObj [("commands", strings (Map_keys (commands sdk)))]) None
  else if String.eqb command "getCustomProperty" then
    let name := parameter parameters "name" in
    match Map_get (properties sdk) name with
    | None =>
        respond id command false VUndefined
          (Some ("Property '" ++ String_ name ++ "' not found"))
    | Some getter =>
        try_catch
          (v <- invoke (CallProperty (String_ name)) (getter tt) ;;
           respond id command true (VObj [("value", VStr (String_ v))]) None)
          (fun e => respond id command false VUndefined (Some (String_ e)))
    end
  else if String.eqb command "executeCustomAction" then
    let name := parameter parameters "name" in
    let args := default_to (VArr []) (parameter parameters "args") in
    match Map_get (actions sdk) name with
    | None =>
        respond id command false VUndefined
          (Some ("Action '" ++ String_ name ++ "' not found"))
    | Some fn =>
        try_catch
          (invoke (CallAction (String_ name) args) (fn args) ;;
           respond id command true VUndefined None)
          (fun e => respond id command false VUndefined (Some (String_ e)))
    end
  else if String.eqb command "executeCustomCommand" then
    let name := parameter parameters "name" in
    let param := default_to (VStr "") (parameter parameters "param") in
    match Map_get (commands sdk) name with
    | None =>
        respond id command false VUndefined
          (Some ("Command '" ++ String_ name ++ "' not found"))
    | Some fn =>
        try_catch
          (result <- invoke (CallCommand (String_ name) param) (fn param) ;;
           respond id command true result None)
          (fun e => respond id command false VUndefined (Some (String_ e)))
    end
  else if String.eqb command "getUIElements" then
    elements <- map_M describe_element (Map_values (elements sdk)) ;;
    respond id command true (VObj [("elements", VArr elements)]) None
  else if String.eqb command "tapElement" then
    let path := parameter parameters "path" in
    match Map_get (elements sdk) path with
    | None =>
        respond id command false VUndefined
          (Some ("Element '" ++ String_ path ++ "' not registered"))
    | Some el =>
        pos <- invoke (GetPosition (name el)) (getPosition el tt) ;;
        match pos with
        | None =>
            respond id command false VUndefined
              (Some ("Element '" ++ String_ path
                     ++ "' returned null position"))
        | Some pos =>
            target <- hit_test doc (x pos) (y pos) ;;
            match target with
            | Some target => tap target pos
            | None => ret tt
            end ;;
            respond id command true VUndefined None
        end
    end
  else
    respond id command false VUndefined
      (Some ("Unknown command: " ++ command)).

End Dispatcher.

(** The answer to [cmd] that reports success, with or without data, and
    the one that reports a failure. *)
Definition succeeded (cmd : PlayGuardCommand) (data : option value)
  : PlayGuardResponse :=
  {| resp_id := cmd_id cmd; resp_command := cmd_command cmd;
     resp_success := true; resp_data := data; resp_error := None |}.

Definition failed (cmd : PlayGuardCommand) (error : string)
  : PlayGuardResponse :=
  {| resp_id := cmd_id cmd; resp_command := cmd_command cmd;
     resp_success := false; resp_data := None; resp_error := Some error |}.

(** The answer [r] is one to [cmd]: it echoes [id] and [command], carries
    [data] only with [success: true], and carries [error] exactly with
    [success: false]. *)
Definition answers (cmd : PlayGuardCommand) (r : PlayGuardResponse) : Prop :=
  resp_id r = cmd_id cmd
  /\ resp_command r = cmd_command cmd
  /\ (resp_data r <> None -> resp_success r = true)
  /\ (resp_error r <> None <-> resp_success r = false).

(** The getter of [el] returns, a position or null. *)
Definition returns_position (el : ElementDescriptor) : Prop :=
  exists pos, getPosition el tt = Returns pos.

Section Notify.

Variable Number_toString : Q -> string.

(** [notifyCall(name, args?)]: [None] is the argument left out. *)
Definition notifyCall (sdk : t) (name : string) (args : option (list value))
  : M unit :=
  let label :=
    if match args with
       | Some items => Nat.ltb 0 (length items)
       | None => false
       end
    then name ++ "("
         ++ join ", " (map (String_ Number_toString)
                           match args with Some items => items | None => [] end)
         ++ ")"
    else name ++ "()" in
  sendEvent "functionCalled"
    (VObj [("fn", VStr name);
           ("args", VArr match args with Some items => items | None => [] end);
           ("label", VStr label)]).

End Notify.

(** Several [registerElement] calls in a row, in the revision that
    listens to [pointerdown]. *)
Fixpoint register_elements (sdk : t)
    (registrations : list (string * (unit -> outcome (option Position))))
  : t * list Effect :=
  match registrations with
  | [] => (sdk, [])
  | (name, getPosition) :: rest =>
      let (sdk1, out1) := registerElement_monitoring sdk name getPosition in
      let (sdk2, out2) := register_elements sdk1 rest in
      (sdk2, (out1 ++ out2)%list)
  end.

(** Several [registerProperty] calls in a row. *)
Fixpoint register_properties (sdk : t)
    (registrations : list (string * PropertyGetter)) : t :=
  match registrations with
  | [] => sdk
  | (name, getter) :: rest =>
      register_properties (registerProperty sdk name getter) rest
  end.

(** The names the dispatcher knows. *)
Definition known_commands : list string :=
  ["ping"; "listCustomProperties"; "listCustomActions";
   "listCustomCommands"; "getCustomProperty"; "executeCustomAction";
   "executeCustomCommand"; "getUIElements"; "tapElement"].

(** An effect that runs code of the host application: a registered
    callback, or the listeners of a dispatched event. *)
Definition runs_host_code (e : Effect) : bool :=
  match e with
  | CallProperty _ | CallAction _ _ | CallCommand _ _
  | GetPosition _ | DispatchEvent _ _ => true
  | ElementFromPoint _ _ | AddPointerDownListener | WsSend _ => false
  end.

End PlayGuardSDK.

(** ** The wiring of the constructor *)

Module Bridge.
Import JS Types.

Section Wiring.

Variable Number_toString : Q -> string.
Variable doc : PlayGuardSDK.Document.
Variable JSON_parse : string -> option PlayGuardCommand.

(** [this.wsClient.onMessage = (cmd) => this.handleCommand(cmd)]: the
    handler starts the dispatcher; being [async] it never throws. *)
Definition onMessage : PlayGuardCommand -> outcome unit :=
  fun _ => Returns tt.

(** [respond] and [sendEvent] call [this.wsClient.send]: the messages of
    a trace go through [send], in order. *)
Definition transmit (w : WSClient.World) (tr : list PlayGuardSDK.Effect)
  : list WSClient.Output :=
  flat_map (fun m => snd (WSClient.send w m)) (PlayGuardSDK.sent tr).

(** A frame that arrives on the socket: [onmessage] hands each document to
    the dispatcher, whose messages go out through [send] before the next
    line is read.  This is the order of the code for a command that is
    handled without a call into the host application, which is handled
    to its end inside the [for] loop. *)
Definition on_frame (w : WSClient.World) (sdk : PlayGuardSDK.t)
    (data : string) : list WSClient.Output :=
  flat_map (fun o =>
              match o with
              | WSClient.CallOnMessage cmd =>
                  o :: transmit w
                         (PlayGuardSDK.trace
                            (PlayGuardSDK.handleCommand Number_toString doc
                               sdk cmd))
              | _ => [o]
              end)
           (WSClient.onmessage JSON_parse (WSClient.client w) data).

End Wiring.

End Bridge.

(** ** Concrete hosts, registries and frames *)

Module Examples.
Import JS Types.
Local Open Scope string_scope.

(** A stand-in for [Number.prototype.toString], exact on 0, 1 and 2; the
    examples below convert no number to a string. *)
Definition digits (n : Q) : string :=
  match Qfloor n with
  | 0%Z => "0"
  | 1%Z => "1"
  | 2%Z => "2"
  | _ => "9"
  end.

(** A page with a [<div>] (node 1) that holds a [<button>] (node 2), and
    a [<canvas>] (node 3).  The button covers [0 <= x < 50], the canvas
    [100 <= x < 400], the rest of the div [50 <= x < 100]; nothing lies at
    [x >= 400] or [x < 0]. *)
Definition page : PlayGuardSDK.Document :=
  {| PlayGuardSDK.tagName := fun n =>
       match n with
       | 1%nat => "DIV"
       | 2%nat => "BUTTON"
       | 3%nat => "CANVAS"
       | _ => "SPAN"
       end;
     PlayGuardSDK.contains := fun a b =>
       Nat.eqb a b || (Nat.eqb a 1 && Nat.eqb b 2);
     PlayGuardSDK.elementFromPoint := fun px py =>
       if Qltb px 0 then None
       else if Qltb px 50 then Some 2%nat
       else if Qltb px 100 then Some 1%nat
       else if Qltb px 400 then Some 3%nat
       else None |}.

Definition element (name : string) (now : outcome (option Position))
  : string * ElementDescriptor :=
  (name, {| Types.name := name; getPosition := fun _ => now |}).

Definition at_ (px py : Q) : outcome (option Position) :=
  Returns (Some {| x := px; y := py |}).

Definition registry (elements : Map ElementDescriptor) : PlayGuardSDK.t :=
  {| PlayGuardSDK.properties := [];
     PlayGuardSDK.actions := [];
     PlayGuardSDK.commands := [];
     PlayGuardSDK.elements := elements;
     PlayGuardSDK.clickMonitoringActive := true |}.

(** A button on the page, an element that is hidden, one outside the
    page and one whose getter throws. *)
Definition login : string * ElementDescriptor := element "login" (at_ 10 10).
Definition hidden : string * ElementDescriptor :=
  element "hidden" (Returns None).
Definition offscreen : string * ElementDescriptor :=
  element "offscreen" (at_ 500 10).
Definition broken : string * ElementDescriptor :=
  element "broken" (Throws (VStr "Error: sprite destroyed")).

(** An element drawn on the canvas and the div around the button. *)
Definition stage : string * ElementDescriptor := element "stage" (at_ 200 10).
Definition panel : string * ElementDescriptor := element "panel" (at_ 60 10).

(** Two sprites drawn on the canvas, 40 pixels apart. *)
Definition upper : string * ElementDescriptor := element "upper" (at_ 100 100).
Definition lower : string * ElementDescriptor := element "lower" (at_ 100 140).

(** A [pointerdown] at the given point. *)
Definition pointerdown (px py : Q) : PlayGuardSDK.DomEvent :=
  PlayGuardSDK.PointerEvent "pointerdown"
    {| PlayGuardSDK.bubbles := true;
       PlayGuardSDK.clientX := px;
       PlayGuardSDK.clientY := py |}.

Definition command (id command : string)
    (parameters : option (list (string * value))) : PlayGuardCommand :=
  {| cmd_id := id; cmd_command := command; cmd_parameters := parameters |}.

Definition tap_command (path : string) : PlayGuardCommand :=
  command "7" "tapElement" (Some [("path", VStr path)]).

(** The text of a ping command, as it comes over the wire:
    [{"type":"command","id":"1","command":"ping"}]. *)
Definition quoted (s : string) : string :=
  String "034"%char (s ++ String "034"%char EmptyString).

Definition ping_text : string :=
  "{" ++ quoted "type" ++ ":" ++ quoted "command" ++ ","
      ++ quoted "id" ++ ":" ++ quoted "1" ++ ","
      ++ quoted "command" ++ ":" ++ quoted "ping" ++ "}".

Definition ping : PlayGuardCommand := command "1" "ping" None.

(** A [JSON.parse] for the one document above, with the white space JSON
    allows around it; any other text is a [SyntaxError]. *)
Definition parse_ping (text : string) : option PlayGuardCommand :=
  if String.eqb (trim text) ping_text then Some ping else None.

Definition lines (l : list string) : string :=
  join (String newline EmptyString) l.

(** A client whose [onMessage] is set, as the SDK sets it: the handler
    starts the dispatcher and never throws. *)
Definition listening : WSClient.t :=
  {| WSClient.ws := Some 0%nat;
     WSClient.url := "ws://localhost:9876";
     WSClient.reconnectDelay := 2000;
     WSClient.reconnectTimer := None;
     WSClient.connected := true;
     WSClient.destroyed := false;
     WSClient.onMessage := Some (fun _ => Returns tt);
     WSClient.onConnected := None;
     WSClient.onDisconnected := None |}.

(** The client above in a browser where its socket is open. *)
Definition online : WSClient.World :=
  {| WSClient.client := listening;
     WSClient.sockets := [WSClient.OPEN];
     WSClient.accepts_url := true;
     WSClient.pending := [];
     WSClient.timers := 0 |}.

(** The same browser and client, with an [onDisconnected] observer that
    throws. *)
Definition watched : WSClient.World :=
  {| WSClient.client :=
       {| WSClient.ws := Some 0%nat;
          WSClient.url := "ws://localhost:9876";
          WSClient.reconnectDelay := 2000;
          WSClient.reconnectTimer := None;
          WSClient.connected := true;
          WSClient.destroyed := false;
          WSClient.onMessage := Some (fun _ => Returns tt);
          WSClient.onConnected := None;
          WSClient.onDisconnected :=
            Some (fun _ => Throws (VStr "TypeError: banner is null")) |};
     WSClient.sockets := [WSClient.OPEN];
     WSClient.accepts_url := true;
     WSClient.pending := [];
     WSClient.timers := 0 |}.



(** A new client in a browser that has created nothing yet. *)
Definition fresh_browser (accepts_url : bool) : WSClient.World :=
  {| WSClient.client := WSClient.new "ws://localhost:9876" 2000;
     WSClient.sockets := [];
     WSClient.accepts_url := accepts_url;
     WSClient.pending := [];
     WSClient.timers := 0 |}.

(** A game that registered two properties, two actions and three command
    handlers, some of which fail. *)
Definition score : PropertyGetter := fun _ => Returns (VNum 2).
Definition stale : PropertyGetter :=
  fun _ => Throws (VStr "ReferenceError: gameState is not defined").
Definition giveCoins : ActionHandler := fun _ => Returns tt.
Definition crash : ActionHandler :=
  fun _ => Throws (VStr "Error: no such level").
Definition getState : CommandHandler :=
  fun param => Returns (VObj [("level", VNum 1); ("echo", param)]).
Definition busy : CommandHandler := fun _ => Throws (VStr "Error: busy").
Definition silent : CommandHandler := fun _ => Returns VUndefined.

Definition game : PlayGuardSDK.t :=
  {| PlayGuardSDK.properties := [("score", score); ("stale", stale)];
     PlayGuardSDK.actions := [("giveCoins", giveCoins); ("crash", crash)];
     PlayGuardSDK.commands :=
       [("getState", getState); ("busy", busy); ("silent", silent)];
     PlayGuardSDK.elements := [login; hidden];
     PlayGuardSDK.clickMonitoringActive := true |}.

(** A command that names what it addresses. *)
Definition named (id command name : string) : PlayGuardCommand :=
  {| cmd_id := id; cmd_command := command;
     cmd_parameters := Some [("name", VStr name)] |}.

End Examples.

(** * Properties *)

Unset Implicit Arguments.
Import JS Types.
Local Open Scope string_scope.

(** ** The registry *)

Section Registry.

Variable V : Type.

(** [set] then [get] finds the value set. *)
Lemma Map_set_get (m : Map V) (k : string) (v : V) :
  Map_get (Map_set m k v) (VStr k) = Some v.
Proof.
  cbn. induction m as [|[k' v'] rest IH]; cbn.
  - now rewrite String.eqb_refl.
  - destruct (String.eqb k' k) eqn:Hk; cbn; rewrite Hk; [reflexivity|exact IH].
Qed.

(** Registering a name again keeps its place in the order; a new name
    goes last. *)
Lemma Map_set_keys (m : Map V) (k : string) (v : V) :
  Map_keys (Map_set m k v)
  = if existsb (String.eqb k) (Map_keys m) then Map_keys m
    else (Map_keys m ++ [k])%list.
Proof.
  induction m as [|[k' v'] rest IH]; cbn; [reflexivity|].
  rewrite (String.eqb_sym k k').
  destruct (String.eqb k' k) eqn:Hk; cbn; [reflexivity|].
  unfold Map_keys in IH. rewrite IH.
  destruct (existsb (String.eqb k) (map fst rest)); reflexivity.
Qed.

End Registry.

(** ** Explicit tap notification *)

Section ExplicitMode.
Import PlayGuardSDK.

(** C9. In the revision where the game reports taps itself, for every
    registry and every name, [notifyTapped name] hands exactly one message
    to the transport: the event [elementTapped] with data
    [{element: name, matchType: "explicit"}].  It reads no position,
    makes no hit test, and does not look the name up: the result is the
    same whatever the registry holds. *)
Theorem notifyTapped_explicit_event :
  forall (sdk : PlayGuardSDK.t) (name : string),
    let run := notifyTapped sdk name in
    sent (trace run)
      = [Event {| ev_event := "elementTapped";
                  ev_data := VObj [("element", VStr name);
                                   ("matchType", VStr "explicit")] |}]
    /\ length (trace run) = 1%nat
    /\ positions_read (trace run) = []
    /\ hit_tests (trace run) = []
    /\ completion run = Returns tt
    /\ run = notifyTapped empty name.
Proof.
  intros sdk name run. subst run. unfold notifyTapped, sendEvent, perform.
  cbn. repeat split; reflexivity.
Qed.

End ExplicitMode.

(** ** Synthetic taps ([tapElement]) *)

Section TapElement.
Import PlayGuardSDK.

Variable Number_toString : Q -> string.
Variable doc : Document.
Variable sdk : PlayGuardSDK.t.
Variable cmd : PlayGuardCommand.

Hypothesis is_tapElement : cmd_command cmd = "tapElement".

Local Abbreviation path := (parameter (cmd_parameters cmd) "path").
Local Abbreviation run := (handleCommand Number_toString doc sdk cmd).

Local Abbreviation tap_succeeded := (succeeded cmd None).
Local Abbreviation tap_failed := (failed cmd).




Lemma tapElement_on_nothing (el : ElementDescriptor) (pos : Position) :
  Map_get (elements sdk) path = Some el ->
  getPosition el tt = Returns (Some pos) ->
  elementFromPoint doc (x pos) (y pos) = None ->
  run = ([GetPosition (name el);
          ElementFromPoint (x pos) (y pos);
          WsSend (Response tap_succeeded)], Returns tt).
Proof.
  intros Hget Hpos Hhit. unfold handleCommand. rewrite is_tapElement.
  cbn. rewrite Hget. unfold invoke, bind. rewrite Hpos. cbn.
  unfold hit_test, invoke. rewrite Hhit. cbn.
  unfold succeeded. rewrite is_tapElement. reflexivity.
Qed.

End TapElement.

(** C10. For a [tapElement] command whose element is registered and whose
    getter returns a position, when no node lies at that position
    ([elementFromPoint] gives null) the command still answers
    [success: true], and no synthetic event is dispatched. *)
Theorem tapElement_without_target_succeeds :
  forall (Number_toString : Q -> string) (doc : PlayGuardSDK.Document)
         (sdk : PlayGuardSDK.t) (cmd : PlayGuardCommand)
         (el : ElementDescriptor) (pos : Position),
    cmd_command cmd = "tapElement" ->
    Map_get (PlayGuardSDK.elements sdk)
            (PlayGuardSDK.parameter (cmd_parameters cmd) "path") = Some el ->
    getPosition el tt = Returns (Some pos) ->
    PlayGuardSDK.elementFromPoint doc (x pos) (y pos) = None ->
    let run := PlayGuardSDK.handleCommand Number_toString doc sdk cmd in
    PlayGuardSDK.responses (PlayGuardSDK.trace run)
      = [PlayGuardSDK.succeeded cmd None]
    /\ PlayGuardSDK.dispatched (PlayGuardSDK.trace run) = []
    /\ PlayGuardSDK.completion run = Returns tt.
Proof.
  intros nts doc sdk cmd el pos Hcmd Hget Hpos Hhit run. subst run.
  rewrite (tapElement_on_nothing nts doc sdk cmd Hcmd el pos Hget Hpos Hhit).
  repeat split; reflexivity.
Qed.

Lemma tapElement_without_target_succeeds_witness :
  let run := PlayGuardSDK.handleCommand Examples.digits Examples.page
               (Examples.registry [Examples.login; Examples.offscreen])
               (Examples.tap_command "offscreen") in
  PlayGuardSDK.responses (PlayGuardSDK.trace run)
    = [PlayGuardSDK.succeeded (Examples.tap_command "offscreen") None]
  /\ PlayGuardSDK.dispatched (PlayGuardSDK.trace run) = []
  /\ PlayGuardSDK.completion run = Returns tt.
Proof.
  apply (tapElement_without_target_succeeds Examples.digits Examples.page
           (Examples.registry [Examples.login; Examples.offscreen])
           (Examples.tap_command "offscreen")
           (snd Examples.offscreen) {| x := 500; y := 10 |});
    reflexivity.
Defined.




(** ** The dispatcher *)

Section Traces.
Import PlayGuardSDK.

Lemma sent_app (a b : list Effect) : sent (a ++ b) = (sent a ++ sent b)%list.
Proof. unfold sent. apply flat_map_app. Qed.

Lemma responses_app (a b : list Effect) :
  responses (a ++ b) = (responses a ++ responses b)%list.
Proof. unfold responses. rewrite sent_app. apply flat_map_app. Qed.

Lemma events_app (a b : list Effect) :
  events (a ++ b) = (events a ++ events b)%list.
Proof. unfold events. rewrite sent_app. apply flat_map_app. Qed.

Lemma positions_read_app (a b : list Effect) :
  positions_read (a ++ b) = (positions_read a ++ positions_read b)%list.
Proof. unfold positions_read. apply flat_map_app. Qed.

(** Looking a key up finds one of the values of the map. *)
Lemma Map_get_In {V} (m : Map V) (k : value) (v : V) :
  Map_get m k = Some v -> In v (Map_values m).
Proof.
  destruct k; cbn; try discriminate.
  induction m as [|[k' v'] rest IH]; cbn; [discriminate|].
  destruct (String.eqb k' s).
  - intros [= ->]. now left.
  - intros Hrest. right. now apply IH.
Qed.

(** When every getter returns, [getUIElements] reads each position once,
    in order, and describes each element. *)
Lemma describe_all (els : list ElementDescriptor) :
  Forall returns_position els ->
  exists entries,
    map_M describe_element els
      = (map (fun el => GetPosition (name el)) els, Returns entries)
    /\ Forall2 (fun el entry =>
                  (forall pos, getPosition el tt = Returns (Some pos) ->
                               entry = ui_element (name el) pos)
                  /\ (getPosition el tt = Returns None ->
                      entry = ui_element (name el) {| x := 0; y := 0 |}))
               els entries.
Proof.
  induction 1 as [|el rest [pos Hpos] _ (entries & Hrun & Hall)].
  - exists []. split; [reflexivity | constructor].
  - cbn [map_M]. unfold describe_element at 1, invoke, bind at 1 2.
    rewrite Hpos. cbn [ret]. rewrite Hrun. unfold bind, ret. cbn.
    rewrite app_nil_r.
    eexists. split; [reflexivity|]. constructor; [|exact Hall].
    split.
    + intros pos' Hsome. rewrite Hsome in Hpos.
      injection Hpos as <-. reflexivity.
    + intros Hnone. rewrite Hnone in Hpos.
      injection Hpos as <-. reflexivity.
Qed.

End Traces.



Section OneResponse.
Import PlayGuardSDK.

Variable Number_toString : Q -> string.
Variable doc : Document.
Variable sdk : PlayGuardSDK.t.
Variable cmd : PlayGuardCommand.

Local Abbreviation run := (handleCommand Number_toString doc sdk cmd).

(** What every branch of the dispatcher has to establish. *)
Local Abbreviation one_answer m :=
  (exists r, sent (trace m) = [Response r]
             /\ answers cmd r
             /\ completion m = Returns tt).

Ltac leaf :=
  eexists; split; [reflexivity|]; split; [|reflexivity];
  unfold answers; cbn; repeat split; intros; congruence.

Lemma respond_one_answer (success : bool) (data : value)
    (error : option string) :
  (success = true -> error = None) ->
  (success = false -> data = VUndefined /\ error <> None) ->
  one_answer (respond (cmd_id cmd) (cmd_command cmd) success data error).
Proof.
  intros Hok Hko. eexists. split; [reflexivity|]. split; [|reflexivity].
  unfold answers. cbn. repeat split.
  - destruct success; [reflexivity|].
    destruct (Hko eq_refl) as [-> _]. congruence.
  - intros Herr. destruct success; [|reflexivity].
    rewrite (Hok eq_refl) in Herr. congruence.
  - intros ->. apply (Hko eq_refl).
Qed.

(** A callback wrapped in [try]/[catch] gives one answer however it
    completes: the answer of the body when it returns, and a failure with
    the stringified exception when it throws. *)
Lemma guarded_call_one_answer {A} (label : Effect) (result : outcome A)
    (data : A -> value) :
  (forall m, label <> WsSend m) ->
  one_answer
    (try_catch
       (bind (invoke label result)
             (fun a => respond (cmd_id cmd) (cmd_command cmd) true
                               (data a) None))
       (fun e => respond (cmd_id cmd) (cmd_command cmd) false VUndefined
                         (Some (String_ Number_toString e)))).
Proof.
  intros Hlabel. destruct result as [a|e]; cbn.
  - destruct label; try (now destruct (Hlabel m)); leaf.
  - destruct label; try (now destruct (Hlabel m)); leaf.
Qed.

(** Every command gets exactly one answer, well formed, and the
    dispatcher completes normally - whatever the property getters, the
    actions and the command handlers do - as long as the position getters
    return. *)
Lemma handleCommand_responds_once :
  Forall returns_position (Map_values (elements sdk)) ->
  one_answer run.
Proof.
  intros Hret. unfold handleCommand. cbv zeta.
  repeat match goal with
         | |- context [if String.eqb (cmd_command cmd) ?s then _ else _] =>
             destruct (String.eqb (cmd_command cmd) s) eqn:?
         end.
  - apply respond_one_answer; [reflexivity | discriminate].
  - apply respond_one_answer; [reflexivity | discriminate].
  - apply respond_one_answer; [reflexivity | discriminate].
  - apply respond_one_answer; [reflexivity | discriminate].
  - destruct (Map_get (properties sdk) _) as [getter|].
    + apply (guarded_call_one_answer (CallProperty _) (getter tt)
               (fun v => VObj [("value", VStr (String_ Number_toString v))])).
      discriminate.
    + apply respond_one_answer; [discriminate | split; congruence].
  - destruct (Map_get (actions sdk) _) as [fn|].
    + apply (guarded_call_one_answer (CallAction _ _) (fn _)
               (fun _ => VUndefined)).
      discriminate.
    + apply respond_one_answer; [discriminate | split; congruence].
  - destruct (Map_get (commands sdk) _) as [fn|].
    + apply (guarded_call_one_answer (CallCommand _ _) (fn _)
               (fun result => result)).
      discriminate.
    + apply respond_one_answer; [discriminate | split; congruence].
  - destruct (describe_all _ Hret) as (entries & Hrun & _).
    rewrite Hrun. unfold bind. cbn.
    eexists. split.
    + rewrite sent_app.
      replace (sent (map _ _)) with (@nil Message); [reflexivity|].
      clear. induction (Map_values (elements sdk)) as [|el rest IH];
        [reflexivity | exact IH].
    + split; [|reflexivity].
      unfold answers; cbn; repeat split; intros; congruence.
  - destruct (Map_get (elements sdk) _) as [el|] eqn:Hget.
    + apply Map_get_In in Hget.
      rewrite Forall_forall in Hret. destruct (Hret el Hget) as [pos Hpos].
      unfold invoke, bind at 1. rewrite Hpos.
      destruct pos as [pos|]; cbn.
      * destruct (elementFromPoint doc (x pos) (y pos)); cbn; leaf.
      * leaf.
    + apply respond_one_answer; [discriminate | split; congruence].
  - apply respond_one_answer; [discriminate | split; congruence].
Qed.

End OneResponse.

Section Exceptions.
Import PlayGuardSDK.

Variable Number_toString : Q -> string.
Variable doc : Document.
Variable sdk : PlayGuardSDK.t.
Variable cmd : PlayGuardCommand.

Local Abbreviation run := (handleCommand Number_toString doc sdk cmd).
Local Abbreviation name_ := (parameter (cmd_parameters cmd) "name").

(** The three registered callbacks are called inside [try]: an exception
    becomes the failure answer that carries [String(e)]. *)
Lemma property_getter_exception_answered (getter : PropertyGetter)
    (e : value) :
  cmd_command cmd = "getCustomProperty" ->
  Map_get (properties sdk) name_ = Some getter ->
  getter tt = Throws e ->
  run = ([CallProperty (String_ Number_toString name_);
          WsSend (Response (failed cmd (String_ Number_toString e)))],
         Returns tt).
Proof.
  intros Hcmd Hget Hthrow. unfold handleCommand. rewrite Hcmd. cbn.
  rewrite Hget. unfold invoke, bind, try_catch. rewrite Hthrow. cbn.
  unfold failed. rewrite Hcmd. reflexivity.
Qed.

Lemma action_exception_answered (fn : ActionHandler) (e : value) :
  cmd_command cmd = "executeCustomAction" ->
  Map_get (actions sdk) name_ = Some fn ->
  fn (default_to (VArr []) (parameter (cmd_parameters cmd) "args"))
    = Throws e ->
  sent (trace run)
    = [Response (failed cmd (String_ Number_toString e))]
  /\ completion run = Returns tt.
Proof.
  intros Hcmd Hget Hthrow. unfold handleCommand. rewrite Hcmd. cbn.
  rewrite Hget. unfold invoke, bind, try_catch. rewrite Hthrow. cbn.
  unfold failed. rewrite Hcmd. split; reflexivity.
Qed.

Lemma command_exception_answered (fn : CommandHandler) (e : value) :
  cmd_command cmd = "executeCustomCommand" ->
  Map_get (commands sdk) name_ = Some fn ->
  fn (default_to (VStr "") (parameter (cmd_parameters cmd) "param"))
    = Throws e ->
  sent (trace run)
    = [Response (failed cmd (String_ Number_toString e))]
  /\ completion run = Returns tt.
Proof.
  intros Hcmd Hget Hthrow. unfold handleCommand. rewrite Hcmd. cbn.
  rewrite Hget. unfold invoke, bind, try_catch. rewrite Hthrow. cbn.
  unfold failed. rewrite Hcmd. split; reflexivity.
Qed.

(** [map] stops at the first getter that throws, and nothing was sent. *)
Lemma describe_until_throw (before after : list ElementDescriptor)
    (el : ElementDescriptor) (e : value) :
  Forall returns_position before ->
  getPosition el tt = Throws e ->
  map_M describe_element (before ++ el :: after)
    = (map (fun d => GetPosition (name d)) (before ++ [el]), Throws e).
Proof.
  intros Hret Hthrow. induction Hret as [|d rest [pos Hpos] _ IH].
  - cbn. unfold describe_element, invoke, bind. rewrite Hthrow. reflexivity.
  - cbn [app map_M map]. unfold describe_element at 1, invoke, bind at 1 2.
    rewrite Hpos. cbn [ret]. rewrite IH. reflexivity.
Qed.

End Exceptions.

(** C2, where the code departs from it. A position getter is called
    outside any [try]: when the getter of the element named by a
    [tapElement] command throws, or when the getter of a registered
    element throws during [getUIElements] (those before it returning),
    the dispatcher hands nothing to the transport and its promise is
    rejected with the exception. *)
Theorem position_getter_exception_escapes :
  forall (Number_toString : Q -> string) (doc : PlayGuardSDK.Document)
         (sdk : PlayGuardSDK.t) (cmd : PlayGuardCommand)
         (el : ElementDescriptor) (e : value),
    getPosition el tt = Throws e ->
    (cmd_command cmd = "tapElement"
     /\ Map_get (PlayGuardSDK.elements sdk)
                (PlayGuardSDK.parameter (cmd_parameters cmd) "path")
        = Some el)
    \/ (cmd_command cmd = "getUIElements"
        /\ exists before after,
             Map_values (PlayGuardSDK.elements sdk) = (before ++ el :: after)%list
             /\ Forall PlayGuardSDK.returns_position before) ->
    let run := PlayGuardSDK.handleCommand Number_toString doc sdk cmd in
    PlayGuardSDK.sent (PlayGuardSDK.trace run) = []
    /\ PlayGuardSDK.completion run = Throws e.
Proof.
  intros nts doc sdk cmd el e Hthrow Hcase run. subst run.
  destruct Hcase as [(Hcmd & Hget) | (Hcmd & before & after & Hvals & Hret)].
  - unfold PlayGuardSDK.handleCommand. rewrite Hcmd. cbn.
    rewrite Hget. unfold PlayGuardSDK.invoke, PlayGuardSDK.bind.
    rewrite Hthrow. split; reflexivity.
  - unfold PlayGuardSDK.handleCommand. rewrite Hcmd.
    cbn -[PlayGuardSDK.map_M PlayGuardSDK.respond]. rewrite Hvals.
    rewrite (describe_until_throw before after el e Hret Hthrow).
    unfold PlayGuardSDK.bind, PlayGuardSDK.trace, PlayGuardSDK.completion.
    cbn [fst snd]. split; [|reflexivity].
    clear. induction (before ++ [el])%list as [|d rest IH];
      [reflexivity | exact IH].
Qed.

Lemma position_getter_exception_escapes_witness :
  (let run := PlayGuardSDK.handleCommand Examples.digits Examples.page
                (Examples.registry [Examples.login; Examples.broken])
                (Examples.tap_command "broken") in
   PlayGuardSDK.sent (PlayGuardSDK.trace run) = []
   /\ PlayGuardSDK.completion run = Throws (VStr "Error: sprite destroyed"))
  /\ (let run := PlayGuardSDK.handleCommand Examples.digits Examples.page
                   (Examples.registry [Examples.login; Examples.broken])
                   (Examples.command "4" "getUIElements" None) in
      PlayGuardSDK.sent (PlayGuardSDK.trace run) = []
      /\ PlayGuardSDK.completion run
         = Throws (VStr "Error: sprite destroyed")).
Proof.
  split.
  - apply (position_getter_exception_escapes Examples.digits Examples.page
             (Examples.registry [Examples.login; Examples.broken])
             (Examples.tap_command "broken") (snd Examples.broken)).
    + reflexivity.
    + left. split; reflexivity.
  - apply (position_getter_exception_escapes Examples.digits Examples.page
             (Examples.registry [Examples.login; Examples.broken])
             (Examples.command "4" "getUIElements" None)
             (snd Examples.broken)).
    + reflexivity.
    + right. split; [reflexivity|].
      exists [snd Examples.login], []. split; [reflexivity|].
      repeat constructor. eexists. reflexivity.
Defined.

(** C1, where the code departs from it. The registry holds the elements
    "login" and "broken"; the getter of "broken" throws.  For the command
    [getUIElements] the dispatcher reads both positions and hands no
    response at all to the transport, where the claim has exactly one. *)
Theorem getUIElements_without_response :
  let sdk := Examples.registry [Examples.login; Examples.broken] in
  let cmd := Examples.command "4" "getUIElements" None in
  let run := PlayGuardSDK.handleCommand Examples.digits Examples.page sdk cmd in
  PlayGuardSDK.trace run
    = [PlayGuardSDK.GetPosition "login"; PlayGuardSDK.GetPosition "broken"]
  /\ PlayGuardSDK.responses (PlayGuardSDK.trace run) = []
  /\ length (PlayGuardSDK.sent (PlayGuardSDK.trace run)) <> 1%nat.
Proof.
  cbv zeta. repeat split. cbn. discriminate.
Qed.

(** ** The transport after [destroy()] *)

Section Teardown.
Import WSClient.

Variable JSON_parse : string -> option PlayGuardCommand.

Lemma set_nth_length {A} (l : list A) (n : nat) (a : A) :
  length (set_nth l n a) = length l.
Proof.
  revert n. induction l as [|b rest IH]; intros [|n]; cbn; auto.
Qed.

Lemma remove_timer_incl (timer : Timer) (l : list Timer) :
  incl (remove_timer timer l) l.
Proof.
  intros t' Hin. unfold remove_timer in Hin.
  apply filter_In in Hin. tauto.
Qed.

Lemma remove_timer_not_pending (timer : Timer) (l : list Timer) :
  existsb (Nat.eqb timer) (remove_timer timer l) = false.
Proof.
  unfold remove_timer. induction l as [|t' rest IH]; cbn; [reflexivity|].
  destruct (Nat.eqb t' timer) eqn:E; cbn; [exact IH|].
  rewrite Nat.eqb_sym, E. exact IH.
Qed.

Lemma onmessage_quiet (c : WSClient.t) (data : string) :
  Forall (fun o => quiet o = true) (onmessage JSON_parse c data).
Proof.
  unfold onmessage. apply Forall_flat_map, Forall_forall. intros line _.
  unfold onmessage_line.
  destruct (negb _); [constructor|].
  destruct (JSON_parse line) as [msg|]; [|repeat constructor].
  destruct (onMessage c) as [handler|]; [|constructor].
  destruct (handler msg); repeat constructor.
Qed.

(** [destroy()] tears the client down, whatever its state was. *)
Lemma destroy_torn_down (w : World) : torn_down (fst (destroy w)).
Proof.
  destruct w as [c socks acc pend tm]. destruct c as [s u d rt cn ds om oc od].
  unfold destroy, torn_down. cbn.
  destruct rt as [timer|]; cbn; destruct s as [s|]; cbn;
    unfold socket_close, readyState; cbn;
    try destruct (nth s socks CLOSED); cbn; auto.
Qed.

Ltac destroy_cases w :=
  destruct w as [c socks acc pend tm];
  destruct c as [s u d rt cn ds om oc od];
  unfold destroy; cbn;
  destruct rt as [timer|]; cbn; destruct s as [s|]; cbn;
  unfold socket_close, readyState; cbn;
  try destruct (nth s socks CLOSED); cbn.

Lemma destroy_sockets_length (w : World) :
  length (sockets (fst (destroy w))) = length (sockets w).
Proof. destroy_cases w; auto using set_nth_length. Qed.

Lemma destroy_pending_incl (w : World) :
  incl (pending (fst (destroy w))) (pending w).
Proof. destroy_cases w; auto using incl_refl, incl_filter. Qed.

Lemma destroy_clears_timer (w : World) (timer : Timer) :
  reconnectTimer (client w) = Some timer ->
  In (ClearTimeout timer) (snd (destroy w))
  /\ is_pending (fst (destroy w)) timer = false.
Proof.
  intros Htimer. destruct w as [c socks acc pend tm].
  destruct c as [s u d rt cn ds om oc od]. cbn in Htimer. subst rt.
  unfold destroy, is_pending. cbn.
  destruct s as [s|]; cbn; unfold socket_close, readyState; cbn;
    try destruct (nth s socks CLOSED); cbn;
    (split; [now left | apply remove_timer_not_pending]).
Qed.

Lemma destroy_quiet (w : World) :
  Forall (fun o => quiet o = true) (snd (destroy w)).
Proof. destroy_cases w; repeat constructor. Qed.

Lemma destroy_again_silent (w : World) :
  torn_down w -> snd (destroy w) = [].
Proof.
  intros (_ & Hws & Hrt). destruct w as [c socks acc pend tm].
  destruct c as [s u d rt cn ds om oc od]. cbn in Hws, Hrt. subst s rt.
  reflexivity.
Qed.

(** A second [destroy()] finds nothing left to do. *)
Lemma destroy_idempotent (w : World) :
  destroy (fst (destroy w)) = (fst (destroy w), []).
Proof. destroy_cases w; reflexivity. Qed.

(** One turn of the event loop on a client that is torn down: it stays
    torn down, the turn is quiet, no socket is created and no timer is
    added. *)
Lemma step_torn_down (w : World) (i : Input) :
  torn_down w ->
  torn_down (fst (step JSON_parse w i))
  /\ Forall (fun o => quiet o = true) (snd (step JSON_parse w i))
  /\ length (sockets (fst (step JSON_parse w i))) = length (sockets w)
  /\ incl (pending (fst (step JSON_parse w i))) (pending w).
Proof.
  intros (Hd & Hws & Hrt).
  assert (Hstay : torn_down w
                  /\ Forall (fun o => quiet o = true) (@nil Output)
                  /\ length (sockets w) = length (sockets w)
                  /\ incl (pending w) (pending w)).
  { repeat split; auto using incl_refl. }
  destruct i as [ | response | | s | s data | s | s | timer ];
    unfold step.
  - unfold connect. rewrite Hws, Hd. exact Hstay.
  - unfold send. rewrite Hws. exact Hstay.
  - destruct w as [c socks acc pend tm].
    destruct c as [s u d rt cn ds om oc od].
    cbn in Hd, Hws, Hrt. subst ds s rt. unfold torn_down. cbn.
    repeat split; auto using incl_refl.
  - destruct (readyState w s); try exact Hstay.
    unfold onopen, torn_down. cbn. rewrite set_nth_length.
    repeat split; auto using incl_refl.
    destruct (onConnected (client w)); repeat constructor.
  - destruct (readyState w s); try exact Hstay.
    cbn. repeat split; auto using incl_refl, onmessage_quiet.
  - assert (Hclose : forall w',
              w' = set_readyState w s CLOSED ->
              torn_down (fst (onclose w'))
              /\ Forall (fun o => quiet o = true) (snd (onclose w'))
              /\ length (sockets (fst (onclose w'))) = length (sockets w)
              /\ incl (pending (fst (onclose w'))) (pending w)).
    { intros w' ->. unfold onclose, torn_down. cbn. rewrite Hd. cbn.
      destruct (onDisconnected (client w)) as [observer|]; cbn;
        [destruct (observer tt); cbn|];
        rewrite set_nth_length;
        repeat split; auto using incl_refl; repeat constructor. }
    destruct (readyState w s); try exact Hstay; apply Hclose; reflexivity.
  - exact Hstay.
  - destruct (is_pending w timer); [|exact Hstay].
    unfold _connect, torn_down. cbn. rewrite Hd. cbn.
    repeat split; auto using remove_timer_incl.
Qed.

Lemma run_torn_down (inputs : list Input) :
  forall w, torn_down w ->
  torn_down (fst (run JSON_parse w inputs))
  /\ Forall (fun o => quiet o = true) (snd (run JSON_parse w inputs))
  /\ length (sockets (fst (run JSON_parse w inputs))) = length (sockets w)
  /\ incl (pending (fst (run JSON_parse w inputs))) (pending w).
Proof.
  induction inputs as [|i rest IH]; intros w Hw; cbn.
  - repeat split; auto using incl_refl. apply Hw. apply Hw. apply Hw.
  - destruct (step_torn_down w i Hw) as (Hw1 & Hq1 & Hs1 & Hp1).
    destruct (step JSON_parse w i) as [w1 out1]. cbn in Hw1, Hq1, Hs1, Hp1.
    destruct (IH w1 Hw1) as (Hw2 & Hq2 & Hs2 & Hp2).
    destruct (run JSON_parse w1 rest) as [w2 out2]. cbn in *.
    repeat split; try apply Hw2.
    + apply Forall_app. split; assumption.
    + congruence.
    + eapply incl_tran; eassumption.
Qed.

End Teardown.

(** C5. [destroy()] is terminal and idempotent, from any state of the
    client and of the browser.  The call clears the timer the client
    holds and sets [destroyed].  Then, whatever happens next - calls of
    [connect], [send] and [destroy], events of any socket, timers that
    come due - [destroyed] stays set, no socket is created, no timer is
    scheduled and nothing is written to a socket; [connect()] and [send()]
    change nothing and do nothing; a second [destroy()] changes nothing
    and does nothing. *)
Theorem destroy_is_terminal :
  forall (JSON_parse : string -> option PlayGuardCommand)
         (w : WSClient.World) (inputs : list WSClient.Input),
    let w0 := fst (WSClient.destroy w) in
    let later := WSClient.run JSON_parse w0 inputs in
    (forall timer,
        WSClient.reconnectTimer (WSClient.client w) = Some timer ->
        In (WSClient.ClearTimeout timer) (snd (WSClient.destroy w))
        /\ WSClient.is_pending w0 timer = false)
    /\ WSClient.reconnectTimer (WSClient.client w0) = None
    /\ WSClient.destroyed (WSClient.client w0) = true
    /\ Forall (fun o => WSClient.quiet o = true) (snd (WSClient.destroy w))
    /\ WSClient.destroyed (WSClient.client (fst later)) = true
    /\ Forall (fun o => WSClient.quiet o = true) (snd later)
    /\ length (WSClient.sockets (fst later)) = length (WSClient.sockets w)
    /\ incl (WSClient.pending (fst later)) (WSClient.pending w)
    /\ WSClient.connect (fst later) = (fst later, [])
    /\ (forall m, WSClient.send (fst later) m = (fst later, []))
    /\ snd (WSClient.destroy (fst later)) = []
    /\ WSClient.destroy w0 = (w0, []).
Proof.
  intros JSON_parse w inputs w0 later.
  pose proof (destroy_torn_down w) as Hw0. fold w0 in Hw0.
  destruct (run_torn_down JSON_parse inputs w0 Hw0) as (Hl & Hq & Hs & Hp).
  fold later in Hl, Hq, Hs, Hp.
  destruct Hl as (Hld & Hlws & Hlrt). destruct Hw0 as (Hd0 & Hws0 & Hrt0).
  repeat match goal with |- _ /\ _ => split end.
  - intros timer Htimer. apply destroy_clears_timer, Htimer.
  - exact Hrt0.
  - exact Hd0.
  - apply destroy_quiet.
  - exact Hld.
  - exact Hq.
  - rewrite Hs. apply destroy_sockets_length.
  - eapply incl_tran; [exact Hp | apply destroy_pending_incl].
  - unfold WSClient.connect. rewrite Hlws, Hld. reflexivity.
  - intros m. unfold WSClient.send. rewrite Hlws. reflexivity.
  - apply destroy_again_silent. repeat split; assumption.
  - apply destroy_idempotent.
Qed.

(** A connection is lost: the client schedules a timer, and when the
    timer comes due it opens a second socket.  With [destroy()] called in
    between, the timer is cleared; were it to run all the same, nothing
    would come of it. *)
Example reconnects_until_destroyed :
  snd (WSClient.run Examples.parse_ping Examples.online
         [WSClient.Socket_close 0%nat; WSClient.Timer_due 0%nat])
  = [WSClient.ConsoleLog "[PlayGuardSDK] Disconnected. Retrying...";
     WSClient.SetTimeout 0%nat 2000;
     WSClient.NewWebSocket 1%nat "ws://localhost:9876"]
  /\ snd (WSClient.run Examples.parse_ping Examples.online
            [WSClient.Socket_close 0%nat; WSClient.Call_destroy;
             WSClient.Timer_due 0%nat; WSClient.Call_connect;
             WSClient.Call_send (Event {| ev_event := "logMessage";
                                          ev_data := VNull |})])
     = [WSClient.ConsoleLog "[PlayGuardSDK] Disconnected. Retrying...";
        WSClient.SetTimeout 0%nat 2000;
        WSClient.ClearTimeout 0%nat].
Proof. split; reflexivity. Qed.

(** A message is written while the socket is open and dropped once the
    connection is lost. *)
Example send_needs_an_open_socket :
  snd (WSClient.send Examples.online
         (Event {| ev_event := "logMessage"; ev_data := VNull |}))
  = [WSClient.SocketSend 0%nat
       (Event {| ev_event := "logMessage"; ev_data := VNull |})]
  /\ snd (WSClient.run Examples.parse_ping Examples.online
            [WSClient.Socket_close 0%nat;
             WSClient.Call_send (Event {| ev_event := "logMessage";
                                          ev_data := VNull |})])
     = [WSClient.ConsoleLog "[PlayGuardSDK] Disconnected. Retrying...";
        WSClient.SetTimeout 0%nat 2000].
Proof. split; reflexivity. Qed.

(** ** Inbound frames *)

(** Splitting loses nothing: the pieces joined by newlines are the frame,
    and no piece holds a newline. *)
Lemma split_newline_join (data : string) :
  join (String newline EmptyString) (split_newline data) = data.
Proof.
  induction data as [|ch rest IH]; [reflexivity|].
  cbn [split_newline]. destruct (Ascii.eqb ch newline) eqn:Hch.
  - apply Ascii.eqb_eq in Hch. subst ch.
    destruct (split_newline rest) as [|piece pieces] eqn:Hsplit.
    + destruct rest; cbn in Hsplit; [discriminate|].
      destruct (Ascii.eqb a newline); [discriminate|].
      destruct (split_newline rest); discriminate.
    + cbn [join]. cbn [join] in IH. rewrite IH. reflexivity.
  - destruct (split_newline rest) as [|piece pieces] eqn:Hsplit.
    + destruct rest; cbn in Hsplit; [discriminate|].
      destruct (Ascii.eqb a newline); [discriminate|].
      destruct (split_newline rest); discriminate.
    + cbn [join] in *. destruct pieces; cbn; rewrite <- IH; reflexivity.
Qed.

Section Frames.
Import WSClient.

Variable JSON_parse : string -> option PlayGuardCommand.
Variable c : WSClient.t.
Variable handler : PlayGuardCommand -> outcome unit.
Hypothesis listening : onMessage c = Some handler.

(** The documents of the lines that are not blank and parse, in order. *)
Local Abbreviation documents lines :=
  (flat_map (fun line => if blank line then []
                         else match JSON_parse line with
                              | Some msg => [msg]
                              | None => []
                              end) lines).





Lemma blank_line_skipped (line : string) :
  blank line = true -> onmessage_line JSON_parse c line = [].
Proof.
  intros Hblank. unfold onmessage_line. fold (blank line).
  rewrite Hblank. reflexivity.
Qed.


End Frames.




(** ** The tap router: rendered nodes *)

Section DomBranch.
Import PlayGuardSDK.

Variable doc : Document.
Variables cx cy : Q.
Variable tapped : Node.

Local Abbreviation tap_event name pos :=
  (Event {| ev_event := "elementTapped";
            ev_data := dom_event name cx cy pos |}).

Lemma dom_match_related (node : Node) :
  dom_match doc node tapped = true <-> related doc node tapped.
Proof.
  unfold dom_match, related. rewrite !orb_true_iff, Nat.eqb_eq. tauto.
Qed.

(** The first element that hits ends the loop with its event. *)
Lemma dom_loop_hit (name : string) (el : ElementDescriptor) (pos : Position)
    (rest : list (string * ElementDescriptor)) :
  dom_hit doc tapped el pos ->
  dom_loop doc cx cy tapped ((name, el) :: rest)
    = ([GetPosition name; ElementFromPoint (x pos) (y pos);
        WsSend (tap_event name pos)], Returns tt).
Proof.
  intros (node & (Hpos & Hnode & Hcanvas) & Hrel).
  apply dom_match_related in Hrel.
  cbn [dom_loop]. unfold invoke, bind at 1. rewrite Hpos.
  unfold hit_test, invoke, bind. rewrite Hnode, Hcanvas, Hrel. reflexivity.
Qed.

(** An element that returns and does not hit is passed over: its
    position is read, nothing is sent, and the loop goes on. *)
Lemma dom_loop_skip (name : string) (el : ElementDescriptor)
    (rest : list (string * ElementDescriptor)) :
  returns_position el ->
  (forall pos, ~ dom_hit doc tapped el pos) ->
  exists pre,
    dom_loop doc cx cy tapped ((name, el) :: rest)
      = ((pre ++ trace (dom_loop doc cx cy tapped rest))%list,
         completion (dom_loop doc cx cy tapped rest))
    /\ sent pre = [] /\ positions_read pre = [name].
Proof.
  intros [pos Hpos] Hmiss. cbn [dom_loop]. unfold invoke, bind at 1.
  rewrite Hpos. destruct pos as [pos|].
  - unfold hit_test, invoke, bind at 1.
    destruct (elementFromPoint doc (x pos) (y pos)) as [node|] eqn:Hnode.
    + destruct (is_canvas doc node) eqn:Hcanvas.
      * destruct (dom_loop doc cx cy tapped rest) as [tr r].
        exists [GetPosition name; ElementFromPoint (x pos) (y pos)].
        repeat split.
      * destruct (dom_match doc node tapped) eqn:Hmatch.
        -- exfalso. apply (Hmiss pos). exists node.
           split; [repeat split; assumption|].
           apply dom_match_related, Hmatch.
        -- destruct (dom_loop doc cx cy tapped rest) as [tr r].
           exists [GetPosition name; ElementFromPoint (x pos) (y pos)].
           repeat split.
    + destruct (dom_loop doc cx cy tapped rest) as [tr r].
      exists [GetPosition name; ElementFromPoint (x pos) (y pos)].
      repeat split.
  - destruct (dom_loop doc cx cy tapped rest) as [tr r].
    exists [GetPosition name]. repeat split.
Qed.

Lemma dom_loop_first_hit (before after : list (string * ElementDescriptor))
    (name : string) (el : ElementDescriptor) (pos : Position) :
  Forall returns_position (Map_values before) ->
  (forall n' el' pos', In (n', el') before -> ~ dom_hit doc tapped el' pos') ->
  dom_hit doc tapped el pos ->
  let run := dom_loop doc cx cy tapped (before ++ (name, el) :: after) in
  sent (trace run) = [tap_event name pos]
  /\ positions_read (trace run) = (Map_keys before ++ [name])%list
  /\ completion run = Returns tt.
Proof.
  intros Hret Hmiss Hhit. induction before as [|[n' el'] before IH].
  - cbn [app]. cbv zeta. rewrite (dom_loop_hit name el pos after Hhit).
    repeat split.
  - cbn [Map_values map] in Hret. inversion Hret as [|? ? Hel' Hrest]; subst.
    destruct (dom_loop_skip n' el' (before ++ (name, el) :: after) Hel')
      as (pre & Hrun & Hsent & Hread).
    { intros pos'. apply (Hmiss n' el' pos'). now left. }
    destruct IH as (IHsent & IHread & IHdone); [exact Hrest | |].
    { intros n2 el2 pos2 Hin. apply (Hmiss n2 el2 pos2). now right. }
    cbv zeta in *. cbn [app]. rewrite Hrun.
    unfold trace, completion in *. cbn [fst snd].
    rewrite sent_app, positions_read_app, Hsent, Hread, IHsent, IHread.
    repeat split. exact IHdone.
Qed.

Lemma dom_loop_no_hit (entries : list (string * ElementDescriptor)) :
  Forall returns_position (Map_values entries) ->
  (forall n el pos, In (n, el) entries -> ~ dom_hit doc tapped el pos) ->
  let run := dom_loop doc cx cy tapped entries in
  sent (trace run) = []
  /\ positions_read (trace run) = Map_keys entries
  /\ completion run = Returns tt.
Proof.
  intros Hret Hmiss. induction entries as [|[n el] rest IH].
  - repeat split.
  - cbn [Map_values map] in Hret. inversion Hret as [|? ? Hel Hrest]; subst.
    destruct (dom_loop_skip n el rest Hel) as (pre & Hrun & Hsent & Hread).
    { intros pos. apply (Hmiss n el pos). now left. }
    destruct IH as (IHsent & IHread & IHdone); [exact Hrest | |].
    { intros n2 el2 pos2 Hin. apply (Hmiss n2 el2 pos2). now right. }
    cbv zeta in *. rewrite Hrun.
    unfold trace, completion in *. cbn [fst snd].
    rewrite sent_app, positions_read_app, Hsent, Hread, IHsent, IHread.
    repeat split. exact IHdone.
Qed.

(** Whatever the getters do, the loop sends at most one message. *)
Lemma dom_loop_sends_at_most_one (entries : list (string * ElementDescriptor)) :
  (length (sent (trace (dom_loop doc cx cy tapped entries))) <= 1)%nat.
Proof.
  induction entries as [|[n el] rest IH]; [cbn; lia|].
  cbn [dom_loop]. unfold invoke, bind at 1.
  destruct (getPosition el tt) as [[pos|]|e]; [| |cbn; lia].
  - unfold hit_test, invoke, bind at 1.
    destruct (elementFromPoint doc (x pos) (y pos)) as [node|].
    + destruct (is_canvas doc node).
      * destruct (dom_loop doc cx cy tapped rest) as [tr r]. exact IH.
      * destruct (dom_match doc node tapped); [cbn; lia|].
        destruct (dom_loop doc cx cy tapped rest) as [tr r]. exact IH.
    + destruct (dom_loop doc cx cy tapped rest) as [tr r]. exact IH.
  - destruct (dom_loop doc cx cy tapped rest) as [tr r]. exact IH.
Qed.

End DomBranch.

(** C4. A [pointerdown] lands on a node that is not a canvas, and every
    registered getter returns.  An element hits when its getter returns a
    position, the node at that position exists and is not a canvas, and
    that node is the tapped node, contains it or is contained by it;
    elements whose getter returns null, or whose position resolves to no
    node or to a canvas, never hit.  Then the first element that hits, in
    registration order, gives the only message of the handler: the event
    [elementTapped] with [matchType: "dom"] and rounded coordinates; the
    positions of the elements after it are not read.  When no element
    hits, nothing is sent.  In all cases at most one message is sent. *)
Theorem rendered_node_first_match_wins :
  forall (doc : PlayGuardSDK.Document) (sdk : PlayGuardSDK.t)
         (e : PlayGuardSDK.DomEvent) (tapped : PlayGuardSDK.Node),
    let cx := PlayGuardSDK.clientX (PlayGuardSDK.event_init e) in
    let cy := PlayGuardSDK.clientY (PlayGuardSDK.event_init e) in
    PlayGuardSDK.elementFromPoint doc cx cy = Some tapped ->
    PlayGuardSDK.is_canvas doc tapped = false ->
    Forall PlayGuardSDK.returns_position
           (Map_values (PlayGuardSDK.elements sdk)) ->
    let run := PlayGuardSDK.onPointerDown doc sdk e in
    let tr := PlayGuardSDK.trace run in
    (forall before name el pos after,
        PlayGuardSDK.elements sdk = (before ++ (name, el) :: after)%list ->
        PlayGuardSDK.dom_hit doc tapped el pos ->
        (forall n' el' pos',
            In (n', el') before -> ~ PlayGuardSDK.dom_hit doc tapped el' pos') ->
        PlayGuardSDK.sent tr
          = [Event {| ev_event := "elementTapped";
                      ev_data :=
                        VObj [("element", VStr name);
                              ("matchType", VStr "dom");
                              ("tapX", VNum (inject_Z (Math_round cx)));
                              ("tapY", VNum (inject_Z (Math_round cy)));
                              ("elementX",
                               VNum (inject_Z (Math_round (x pos))));
                              ("elementY",
                               VNum (inject_Z (Math_round (y pos))))] |}]
        /\ PlayGuardSDK.positions_read tr = (Map_keys before ++ [name])%list
        /\ PlayGuardSDK.completion run = Returns tt)
    /\ ((forall name el pos,
            In (name, el) (PlayGuardSDK.elements sdk) ->
            ~ PlayGuardSDK.dom_hit doc tapped el pos) ->
        PlayGuardSDK.sent tr = []
        /\ PlayGuardSDK.completion run = Returns tt)
    /\ (length (PlayGuardSDK.sent tr) <= 1)%nat.
Proof.
  intros doc sdk e tapped cx cy Htap Hcanvas Hret run tr. subst run tr.
  unfold PlayGuardSDK.onPointerDown. fold cx cy.
  destruct (Nat.eqb (Map_size (PlayGuardSDK.elements sdk)) 0) eqn:Hsize.
  - apply Nat.eqb_eq in Hsize. unfold Map_size in Hsize.
    apply length_zero_iff_nil in Hsize. split; [|split].
    + intros before name el pos after Hsplit. rewrite Hsize in Hsplit.
      destruct before; discriminate Hsplit.
    + intros _. split; reflexivity.
    + cbn. lia.
  - unfold PlayGuardSDK.hit_test, PlayGuardSDK.invoke.
    rewrite Htap. cbn [PlayGuardSDK.bind]. rewrite Hcanvas. cbn [negb].
    destruct (PlayGuardSDK.dom_loop doc cx cy tapped
                (PlayGuardSDK.elements sdk)) as [tr r] eqn:Hloop.
    unfold PlayGuardSDK.trace, PlayGuardSDK.completion.
    cbn [fst snd app]. split; [|split].
    + intros before name el pos after Hsplit Hhit Hmiss.
      rewrite Hsplit in Hloop, Hret. unfold Map_values in Hret.
      rewrite map_app in Hret. apply Forall_app in Hret.
      destruct Hret as [Hbefore _].
      destruct (dom_loop_first_hit doc cx cy tapped before after name el pos
                  Hbefore Hmiss Hhit) as (Hsent & Hread & Hdone).
      rewrite Hloop in Hsent, Hread, Hdone.
      repeat split; assumption.
    + intros Hmiss.
      destruct (dom_loop_no_hit doc cx cy tapped (PlayGuardSDK.elements sdk)
                  Hret Hmiss) as (Hsent & _ & Hdone).
      rewrite Hloop in Hsent, Hdone. split; assumption.
    + pose proof (dom_loop_sends_at_most_one doc cx cy tapped
                    (PlayGuardSDK.elements sdk)) as Hone.
      rewrite Hloop in Hone. exact Hone.
Qed.

Lemma rendered_node_first_match_wins_witness :
  (* a tap on the button; the div around it is registered before it *)
  (let sdk := Examples.registry [Examples.hidden; Examples.offscreen;
                                 Examples.stage; Examples.panel;
                                 Examples.login] in
   let tr := PlayGuardSDK.trace
               (PlayGuardSDK.onPointerDown Examples.page sdk
                  (Examples.pointerdown (102 # 5) (53 # 5))) in
   PlayGuardSDK.sent tr
     = [Event {| ev_event := "elementTapped";
                 ev_data := VObj [("element", VStr "panel");
                                  ("matchType", VStr "dom");
                                  ("tapX", VNum 20);
                                  ("tapY", VNum 11);
                                  ("elementX", VNum 60);
                                  ("elementY", VNum 10)] |}]
   /\ PlayGuardSDK.positions_read tr
      = ["hidden"; "offscreen"; "stage"; "panel"])
  (* a tap on the div when nothing registered resolves to a node *)
  /\ (let sdk := Examples.registry [Examples.hidden; Examples.offscreen;
                                    Examples.stage] in
      PlayGuardSDK.sent
        (PlayGuardSDK.trace
           (PlayGuardSDK.onPointerDown Examples.page sdk
              (Examples.pointerdown 60 10))) = []).
Proof.
  split.
  - destruct (rendered_node_first_match_wins Examples.page
                (Examples.registry [Examples.hidden; Examples.offscreen;
                                    Examples.stage; Examples.panel;
                                    Examples.login])
                (Examples.pointerdown (102 # 5) (53 # 5)) 2%nat
                eq_refl eq_refl) as (Hfirst & _).
    + repeat constructor; eexists; reflexivity.
    + destruct (Hfirst [Examples.hidden; Examples.offscreen; Examples.stage]
                  "panel" (snd Examples.panel) {| x := 60; y := 10 |}
                  [Examples.login] eq_refl) as (Hsent & Hread & _).
      * exists 1%nat. repeat split. right. left. reflexivity.
      * intros n' el' pos' [Hin|[Hin|[Hin|[]]]] (node & (Hpos & Hnode & Hc) & _);
          injection Hin as <- <-; cbn in Hpos.
        -- discriminate Hpos.
        -- injection Hpos as <-. discriminate Hnode.
        -- injection Hpos as <-. injection Hnode as <-. discriminate Hc.
      * split; [exact Hsent | exact Hread].
  - destruct (rendered_node_first_match_wins Examples.page
                (Examples.registry [Examples.hidden; Examples.offscreen;
                                    Examples.stage])
                (Examples.pointerdown 60 10) 1%nat
                eq_refl eq_refl) as (_ & Hnone & _).
    + repeat constructor; eexists; reflexivity.
    + apply Hnone.
      intros n' el' pos' [Hin|[Hin|[Hin|[]]]] (node & (Hpos & Hnode & Hc) & _);
        injection Hin as <- <-; cbn in Hpos.
      * discriminate Hpos.
      * injection Hpos as <-. discriminate Hnode.
      * injection Hpos as <-. injection Hnode as <-. discriminate Hc.
Defined.

(** ** The tap router: the canvas *)

Section Distances.

Lemma Qltb_lt (a b : Q) : Qltb a b = true <-> a < b.
Proof.
  unfold Qltb. rewrite negb_true_iff. split.
  - intros Hle. apply Qnot_le_lt. intros Hba.
    apply Qle_bool_iff in Hba. congruence.
  - intros Hlt. destruct (Qle_bool b a) eqn:Hle; [|reflexivity].
    apply Qle_bool_iff in Hle. exfalso. exact (Qlt_not_le _ _ Hlt Hle).
Qed.

Lemma Qltb_ge (a b : Q) : Qltb a b = false <-> b <= a.
Proof.
  unfold Qltb. rewrite negb_false_iff. apply Qle_bool_iff.
Qed.

Lemma Root_ltb_trans (a b c : Root) :
  Root_ltb a b = true -> Root_ltb b c = true -> Root_ltb a c = true.
Proof.
  unfold Root_ltb. rewrite !Qltb_lt. apply Qlt_trans.
Qed.

Lemma Root_ltb_le_trans (a b c : Root) :
  Root_ltb a b = true -> Root_ltb c b = false -> Root_ltb a c = true.
Proof.
  unfold Root_ltb. rewrite !Qltb_lt, Qltb_ge. apply Qlt_le_trans.
Qed.


(** The comparison with the threshold is the comparison of the squared
    distance with the square of 35. *)
Lemma within_threshold_squares (cx cy : Q) (p : Position) :
  PlayGuardSDK.within_threshold cx cy p
  <-> (x p - cx) ^ 2 + (y p - cy) ^ 2 < 35 * 35.
Proof.
  unfold PlayGuardSDK.within_threshold, Root_ltb, PlayGuardSDK.distance,
    Root_of, PlayGuardSDK.THRESHOLD. cbn [radicand]. apply Qltb_lt.
Qed.

(** The order of [Root] is the order of the real square roots, and
    [Root_of] is the real number it is made from. *)
Lemma Root_ltb_real_sqrt (a b : Q) :
  0 <= a -> 0 <= b ->
  Root_ltb (Math_sqrt a) (Math_sqrt b) = true
  <-> Rdefinitions.Rlt (R_sqrt.sqrt (Rdefinitions.Q2R a))
                       (R_sqrt.sqrt (Rdefinitions.Q2R b)).
Proof.
  intros Ha Hb. unfold Root_ltb. cbn [radicand]. rewrite Qltb_lt.
  assert (HRa : Rdefinitions.Rle (Rdefinitions.IZR 0) (Rdefinitions.Q2R a)).
  { rewrite <- RMicromega.Q2R_0. apply Qreals.Qle_Rle, Ha. }
  split.
  - intros Hlt. apply R_sqrt.sqrt_lt_1_alt. split; [exact HRa|].
    apply Qreals.Qlt_Rlt, Hlt.
  - intros Hlt. apply Qreals.Rlt_Qlt, R_sqrt.sqrt_lt_0_alt, Hlt.
Qed.

Lemma Root_of_real (q : Q) :
  0 <= q ->
  R_sqrt.sqrt (Rdefinitions.Q2R (radicand (Root_of q))) = Rdefinitions.Q2R q.
Proof.
  intros Hq. unfold Root_of. cbn [radicand]. rewrite Qreals.Q2R_mult.
  apply R_sqrt.sqrt_square. rewrite <- RMicromega.Q2R_0.
  apply Qreals.Qle_Rle, Hq.
Qed.

(** [Math_round_root] gives the integer [n] with
    [n - 1/2 <= sqrt q < n + 1/2]. *)
Lemma Math_round_root_nearest (q : Q) :
  0 <= q ->
  let n := inject_Z (Math_round_root (Math_sqrt q)) in
  0 <= n
  /\ q < (n + (1 # 2)) * (n + (1 # 2))
  /\ (0 < n -> (n - (1 # 2)) * (n - (1 # 2)) <= q).
Proof.
  intros Hq. unfold Math_round_root. cbn [radicand].
  set (f := Qfloor q). set (s := Z.sqrt f).
  assert (Hf : (0 <= f)%Z).
  { subst f. change 0%Z with (Qfloor 0). apply Qfloor_resp_le, Hq. }
  destruct (Z.sqrt_spec f Hf) as [Hlo Hhi]. fold s in Hlo, Hhi.
  assert (Hs : (0 <= s)%Z) by apply Z.sqrt_nonneg.
  assert (Hfq : inject_Z f <= q) by apply Qfloor_le.
  assert (Hqf : q < inject_Z (f + 1)) by apply Qlt_floor.
  assert (Hlo' : inject_Z s * inject_Z s <= q).
  { rewrite <- inject_Z_mult. eapply Qle_trans; [|exact Hfq].
    rewrite <- Zle_Qle. exact Hlo. }
  assert (Hhi' : q < (inject_Z s + 1) * (inject_Z s + 1)).
  { eapply Qlt_le_trans; [exact Hqf|].
    change 1 with (inject_Z 1). rewrite <- inject_Z_plus, <- inject_Z_mult.
    rewrite <- Zle_Qle. unfold Z.succ in Hhi. lia. }
  assert (Hs' : 0 <= inject_Z s).
  { change 0 with (inject_Z 0). rewrite <- Zle_Qle. exact Hs. }
  destruct (Qltb q _) eqn:Hhalf.
  - apply Qltb_lt in Hhalf. cbv zeta. repeat split.
    + exact Hs'.
    + exact Hhalf.
    + intros Hpos.
      assert (H1 : 1 <= inject_Z s).
      { change 1 with (inject_Z 1). rewrite <- Zle_Qle.
        change 0 with (inject_Z 0) in Hpos. rewrite <- Zlt_Qlt in Hpos. lia. }
      nra.
  - apply Qltb_ge in Hhalf. cbv zeta. rewrite inject_Z_plus.
    change (inject_Z 1) with 1. repeat split.
    + lra.
    + nra.
    + intros _. nra.
Qed.

End Distances.

Section CanvasBranch.
Import PlayGuardSDK.

Variables cx cy : Q.

Local Abbreviation dist p := (distance p cx cy).

(** A candidate strictly nearer than the bound becomes the choice. *)
Lemma invariant_closer (cs : list (string * Position)) (st : Closest)
    (name : string) (p : Position) :
  canvas_invariant cx cy cs st ->
  Root_ltb (dist p) (closestDist st) = true ->
  canvas_invariant cx cy (cs ++ [(name, p)])
    {| closestName := Some name; closestDist := dist p;
       closestPos := Some p |}.
Proof.
  unfold canvas_invariant. cbn [closestName closestPos closestDist].
  destruct (closestName st) as [chosen|].
  - intros (pos & before & after & _ & Hdist & Hin & Hcs & Hbefore & Hafter)
           Hlt.
    rewrite Hdist in Hlt.
    exists p, cs, []. repeat split.
    + unfold within_threshold in *. eapply Root_ltb_trans; eassumption.
    + intros n q Hq. unfold nearer. subst cs.
      apply in_app_or in Hq. destruct Hq as [Hq|[Hq|Hq]].
      * eapply Root_ltb_trans; [exact Hlt | exact (Hbefore n q Hq)].
      * injection Hq as _ <-. exact Hlt.
      * eapply Root_ltb_le_trans; [exact Hlt | exact (Hafter n q Hq)].
    + intros n q [].
  - intros (_ & Hdist & Hout) Hlt. rewrite Hdist in Hlt.
    exists p, cs, []. repeat split.
    + exact Hlt.
    + intros n q Hq. unfold nearer.
      eapply Root_ltb_le_trans; [exact Hlt|].
      specialize (Hout n q Hq). unfold within_threshold in Hout.
      destruct (Root_ltb (dist q) (Root_of THRESHOLD)); congruence.
    + intros n q [].
Qed.

(** A candidate that is not strictly nearer changes nothing. *)
Lemma invariant_farther (cs : list (string * Position)) (st : Closest)
    (name : string) (p : Position) :
  canvas_invariant cx cy cs st ->
  Root_ltb (dist p) (closestDist st) = false ->
  canvas_invariant cx cy (cs ++ [(name, p)]) st.
Proof.
  unfold canvas_invariant. destruct (closestName st) as [chosen|].
  - intros (pos & before & after & Hpos & Hdist & Hin & Hcs & Hbefore & Hafter)
           Hge.
    rewrite Hdist in Hge.
    exists pos, before, (after ++ [(name, p)])%list. repeat split; auto.
    + subst cs. rewrite <- app_assoc. reflexivity.
    + intros n q Hq. apply in_app_or in Hq. destruct Hq as [Hq|[Hq|[]]].
      * exact (Hafter n q Hq).
      * injection Hq as _ <-. exact Hge.
  - intros (Hpos & Hdist & Hout) Hge. rewrite Hdist in Hge.
    repeat split; auto.
    intros n q Hq. apply in_app_or in Hq. destruct Hq as [Hq|[Hq|[]]].
    + exact (Hout n q Hq).
    + injection Hq as _ <-. unfold within_threshold. congruence.
Qed.

Lemma canvas_loop_invariant (entries : list (string * ElementDescriptor)) :
  Forall returns_position (Map_values entries) ->
  forall cs st,
    canvas_invariant cx cy cs st ->
    exists st',
      canvas_loop cx cy entries st
        = (map (fun entry => GetPosition (fst entry)) entries, Returns st')
      /\ canvas_invariant cx cy (cs ++ candidates entries) st'.
Proof.
  induction entries as [|[name el] rest IH]; intros Hret cs st Hinv.
  - exists st. split; [reflexivity|]. cbn. rewrite app_nil_r. exact Hinv.
  - cbn [Map_values map] in Hret.
    inversion Hret as [|? ? [pos Hpos] Hrest]; subst.
    cbn [canvas_loop]. unfold invoke, bind at 1.
    unfold candidates. cbn [flat_map fst snd]. fold (candidates rest).
    rewrite Hpos. destruct pos as [p|].
    + destruct (Root_ltb (dist p) (closestDist st)) eqn:Hlt.
      * destruct (IH Hrest _ _ (invariant_closer cs st name p Hinv Hlt))
          as (st' & Hrun & Hinv').
        exists st'. rewrite Hrun. split; [reflexivity|].
        rewrite <- app_assoc in Hinv'. exact Hinv'.
      * destruct (IH Hrest _ _ (invariant_farther cs st name p Hinv Hlt))
          as (st' & Hrun & Hinv').
        exists st'. rewrite Hrun. split; [reflexivity|].
        rewrite <- app_assoc in Hinv'. exact Hinv'.
    + destruct (IH Hrest cs st Hinv) as (st' & Hrun & Hinv').
      exists st'. rewrite Hrun. split; [reflexivity|]. exact Hinv'.
Qed.

End CanvasBranch.

Lemma sent_get_positions (entries : list (string * ElementDescriptor)) :
  PlayGuardSDK.sent
    (map (fun entry => PlayGuardSDK.GetPosition (fst entry)) entries) = [].
Proof. induction entries as [|entry rest IH]; [reflexivity | exact IH]. Qed.



(** The two sprites are both 20 pixels from the tap: the one registered
    first is reported.  Forty pixels below the lower sprite nothing is
    reported. *)
Example canvas_tie_first_registered :
  PlayGuardSDK.sent
    (PlayGuardSDK.trace
       (PlayGuardSDK.onPointerDown Examples.page
          (Examples.registry [Examples.hidden; Examples.upper;
                              Examples.lower])
          (Examples.pointerdown 100 120)))
  = [Event {| ev_event := "elementTapped";
              ev_data := VObj [("element", VStr "upper");
                               ("matchType", VStr "canvas");
                               ("tapX", VNum 100);
                               ("tapY", VNum 120);
                               ("elementX", VNum 100);
                               ("elementY", VNum 100);
                               ("dist", VNum 20)] |}]
  /\ PlayGuardSDK.sent
       (PlayGuardSDK.trace
          (PlayGuardSDK.onPointerDown Examples.page
             (Examples.registry [Examples.hidden; Examples.upper;
                                 Examples.lower])
             (Examples.pointerdown 100 180))) = [].
Proof. split; reflexivity. Qed.

(** * Further properties of the code *)

(** ** The dispatcher on every input *)

Section DispatcherTotal.
Import PlayGuardSDK.

Variable Number_toString : Q -> string.
Variable doc : Document.
Variable sdk : PlayGuardSDK.t.
Variable cmd : PlayGuardCommand.

Local Abbreviation run := (handleCommand Number_toString doc sdk cmd).

(** [getUIElements] only reads positions while it builds its answer,
    whether the getters return or throw. *)
Lemma describe_reads_only (els : list ElementDescriptor) :
  map GetPosition (positions_read (trace (map_M describe_element els)))
  = trace (map_M describe_element els).
Proof.
  induction els as [|el rest IH]; [reflexivity|].
  cbn [map_M]. set (m := map_M describe_element rest) in *.
  unfold describe_element, invoke, bind, ret, trace in *.
  destruct (getPosition el tt) as [pos|e]; [|reflexivity].
  destruct m as [tr [bs|e]]; cbn in *; rewrite ?app_nil_r; now rewrite IH.
Qed.

Lemma reads_send_nothing (names : list string) :
  sent (map GetPosition names) = []
  /\ dispatched (map GetPosition names) = []
  /\ hit_tests (map GetPosition names) = [].
Proof. induction names as [|n rest IH]; [repeat split | exact IH]. Qed.

Lemma describe_silent (els : list ElementDescriptor) :
  sent (trace (map_M describe_element els)) = []
  /\ dispatched (trace (map_M describe_element els)) = []
  /\ hit_tests (trace (map_M describe_element els)) = [].
Proof. rewrite <- describe_reads_only. apply reads_send_nothing. Qed.



End DispatcherTotal.


(** [map] calls the getter of the first element first. *)
Lemma describe_first_read (el : ElementDescriptor)
    (rest : list ElementDescriptor) :
  In (PlayGuardSDK.GetPosition (name el))
     (PlayGuardSDK.trace
        (PlayGuardSDK.map_M PlayGuardSDK.describe_element (el :: rest))).
Proof.
  cbn [PlayGuardSDK.map_M].
  unfold PlayGuardSDK.describe_element at 1, PlayGuardSDK.invoke,
    PlayGuardSDK.bind at 1 2.
  destruct (getPosition el tt) as [pos|e]; [|now left].
  cbn [PlayGuardSDK.ret].
  destruct (PlayGuardSDK.map_M PlayGuardSDK.describe_element rest)
    as [tr [bs|e]]; now left.
Qed.

(** The two ways the dispatcher ends: one well-formed response and a
    fulfilled promise, or a position getter that threw, nothing sent and
    a rejected promise. *)
Lemma handleCommand_dichotomy (Number_toString : Q -> string)
    (doc : PlayGuardSDK.Document) (sdk : PlayGuardSDK.t)
    (cmd : PlayGuardCommand) :
  let run := PlayGuardSDK.handleCommand Number_toString doc sdk cmd in
  (exists r,
      PlayGuardSDK.sent (PlayGuardSDK.trace run) = [Response r]
      /\ PlayGuardSDK.answers cmd r
      /\ PlayGuardSDK.completion run = Returns tt)
  \/ (exists e n,
        PlayGuardSDK.completion run = Throws e
        /\ PlayGuardSDK.sent (PlayGuardSDK.trace run) = []
        /\ In (PlayGuardSDK.GetPosition n) (PlayGuardSDK.trace run)
        /\ (cmd_command cmd = "getUIElements"
            \/ cmd_command cmd = "tapElement")).
Proof.
  intros run. subst run.
  unfold PlayGuardSDK.handleCommand. cbv zeta.
  repeat match goal with
         | |- context [if String.eqb (cmd_command cmd) ?s then _ else _] =>
             destruct (String.eqb (cmd_command cmd) s) eqn:?
         end;
    try (left; apply respond_one_answer;
         solve [reflexivity | discriminate | split; congruence]).
  - left.
    destruct (Map_get (PlayGuardSDK.properties sdk) _) as [getter|].
    + apply (guarded_call_one_answer Number_toString cmd
               (PlayGuardSDK.CallProperty _) (getter tt)
               (fun v => VObj [("value",
                                VStr (String_ Number_toString v))])).
      discriminate.
    + apply respond_one_answer; [discriminate | split; congruence].
  - left.
    destruct (Map_get (PlayGuardSDK.actions sdk) _) as [fn|].
    + apply (guarded_call_one_answer Number_toString cmd
               (PlayGuardSDK.CallAction _ _) (fn _) (fun _ => VUndefined)).
      discriminate.
    + apply respond_one_answer; [discriminate | split; congruence].
  - left.
    destruct (Map_get (PlayGuardSDK.commands sdk) _) as [fn|].
    + apply (guarded_call_one_answer Number_toString cmd
               (PlayGuardSDK.CallCommand _ _) (fn _) (fun result => result)).
      discriminate.
    + apply respond_one_answer; [discriminate | split; congruence].
  - destruct (describe_silent (Map_values (PlayGuardSDK.elements sdk)))
      as (Hsilent & _).
    destruct (Map_values (PlayGuardSDK.elements sdk)) as [|el rest] eqn:Hels.
    { left. cbn. eexists. split; [reflexivity|]. split; [|reflexivity].
      unfold PlayGuardSDK.answers; cbn; repeat split; intros; congruence. }
    pose proof (describe_first_read el rest) as Hfirst.
    destruct (PlayGuardSDK.map_M PlayGuardSDK.describe_element (el :: rest))
      as [tr [entries|e]];
      unfold PlayGuardSDK.trace in Hsilent, Hfirst;
      cbn [fst] in Hsilent, Hfirst.
    + left. eexists. split; [|split; [|reflexivity]].
      * unfold PlayGuardSDK.bind, PlayGuardSDK.respond, PlayGuardSDK.perform,
          PlayGuardSDK.trace. cbn [fst snd]. rewrite sent_app, Hsilent.
        reflexivity.
      * unfold PlayGuardSDK.answers; cbn; repeat split; intros; congruence.
    + right. exists e, (name el). split; [reflexivity|].
      split; [exact Hsilent|]. split; [exact Hfirst|].
      left. apply String.eqb_eq. assumption.
  - destruct (Map_get (PlayGuardSDK.elements sdk) _) as [el|].
    + unfold PlayGuardSDK.invoke, PlayGuardSDK.bind at 1.
      destruct (getPosition el tt) as [[pos|]|e].
      * left. cbn.
        destruct (PlayGuardSDK.elementFromPoint doc (x pos) (y pos)); cbn;
          (eexists; split; [reflexivity|]; split; [|reflexivity];
           unfold PlayGuardSDK.answers; cbn; repeat split; intros;
           congruence).
      * left. cbn. eexists; split; [reflexivity|]; split; [|reflexivity].
        unfold PlayGuardSDK.answers; cbn; repeat split; intros; congruence.
      * right. exists e, (name el). split; [reflexivity|].
        split; [reflexivity|]. split; [now left|].
        right. apply String.eqb_eq. assumption.
    + left. apply respond_one_answer; [discriminate | split; congruence].
Qed.


(** X3. A property getter, an action or a command handler that throws
    (or whose promise is rejected) is answered: the dispatcher sends one
    failure response whose [error] is [String(e)] and completes
    normally. *)
Theorem callback_exception_becomes_failure :
  forall (Number_toString : Q -> string) (doc : PlayGuardSDK.Document)
         (sdk : PlayGuardSDK.t) (cmd : PlayGuardCommand) (e : value),
    let name := PlayGuardSDK.parameter (cmd_parameters cmd) "name" in
    let run := PlayGuardSDK.handleCommand Number_toString doc sdk cmd in
    let failure := [Response (PlayGuardSDK.failed cmd
                                (String_ Number_toString e))] in
    (forall getter,
        cmd_command cmd = "getCustomProperty" ->
        Map_get (PlayGuardSDK.properties sdk) name = Some getter ->
        getter tt = Throws e ->
        PlayGuardSDK.sent (PlayGuardSDK.trace run) = failure
        /\ PlayGuardSDK.completion run = Returns tt)
    /\ (forall fn,
          cmd_command cmd = "executeCustomAction" ->
          Map_get (PlayGuardSDK.actions sdk) name = Some fn ->
          fn (default_to (VArr [])
                (PlayGuardSDK.parameter (cmd_parameters cmd) "args"))
            = Throws e ->
          PlayGuardSDK.sent (PlayGuardSDK.trace run) = failure
          /\ PlayGuardSDK.completion run = Returns tt)
    /\ (forall fn,
          cmd_command cmd = "executeCustomCommand" ->
          Map_get (PlayGuardSDK.commands sdk) name = Some fn ->
          fn (default_to (VStr "")
                (PlayGuardSDK.parameter (cmd_parameters cmd) "param"))
            = Throws e ->
          PlayGuardSDK.sent (PlayGuardSDK.trace run) = failure
          /\ PlayGuardSDK.completion run = Returns tt).
Proof.
  intros nts doc sdk cmd e name run failure. subst name run failure.
  split; [|split].
  - intros getter Hcmd Hget Hthrow.
    rewrite (property_getter_exception_answered nts doc sdk cmd getter e
               Hcmd Hget Hthrow).
    split; reflexivity.
  - intros fn Hcmd Hget Hthrow.
    exact (action_exception_answered nts doc sdk cmd fn e Hcmd Hget Hthrow).
  - intros fn Hcmd Hget Hthrow.
    exact (command_exception_answered nts doc sdk cmd fn e Hcmd Hget Hthrow).
Qed.

Lemma callback_exception_becomes_failure_witness :
  PlayGuardSDK.sent
    (PlayGuardSDK.trace
       (PlayGuardSDK.handleCommand Examples.digits Examples.page Examples.game
          (Examples.named "11" "getCustomProperty" "stale")))
  = [Response (PlayGuardSDK.failed
                 (Examples.named "11" "getCustomProperty" "stale")
                 "ReferenceError: gameState is not defined")]
  /\ PlayGuardSDK.sent
       (PlayGuardSDK.trace
          (PlayGuardSDK.handleCommand Examples.digits Examples.page
             Examples.game (Examples.named "12" "executeCustomAction" "crash")))
     = [Response (PlayGuardSDK.failed
                    (Examples.named "12" "executeCustomAction" "crash")
                    "Error: no such level")]
  /\ PlayGuardSDK.sent
       (PlayGuardSDK.trace
          (PlayGuardSDK.handleCommand Examples.digits Examples.page
             Examples.game (Examples.named "13" "executeCustomCommand" "busy")))
     = [Response (PlayGuardSDK.failed
                    (Examples.named "13" "executeCustomCommand" "busy")
                    "Error: busy")].
Proof.
  split; [|split].
  - destruct (callback_exception_becomes_failure Examples.digits Examples.page
                Examples.game (Examples.named "11" "getCustomProperty" "stale")
                (VStr "ReferenceError: gameState is not defined"))
      as (Hcase & _).
    apply (Hcase Examples.stale); reflexivity.
  - destruct (callback_exception_becomes_failure Examples.digits Examples.page
                Examples.game
                (Examples.named "12" "executeCustomAction" "crash")
                (VStr "Error: no such level")) as (_ & Hcase & _).
    apply (Hcase Examples.crash); reflexivity.
  - destruct (callback_exception_becomes_failure Examples.digits Examples.page
                Examples.game
                (Examples.named "13" "executeCustomCommand" "busy")
                (VStr "Error: busy")) as (_ & _ & Hcase).
    apply (Hcase Examples.busy); reflexivity.
Defined.

Section NameLookup.
Import PlayGuardSDK.

Variable Number_toString : Q -> string.
Variable doc : Document.
Variable sdk : PlayGuardSDK.t.
Variable cmd : PlayGuardCommand.

Lemma not_known_eqb (known : string) :
  In known known_commands ->
  ~ In (cmd_command cmd) known_commands ->
  String.eqb (cmd_command cmd) known = false.
Proof.
  intros Hin Hout. apply String.eqb_neq. intros Heq. apply Hout.
  rewrite Heq. exact Hin.
Qed.

End NameLookup.

(** X4. A command whose name is none of the nine the dispatcher knows -
    the empty name included - is answered by one failure response,
    ["Unknown command: "] followed by the name; no callback is called, no
    position is read and the document is not touched. *)
Theorem unknown_command_fails :
  forall (Number_toString : Q -> string) (doc : PlayGuardSDK.Document)
         (sdk : PlayGuardSDK.t) (cmd : PlayGuardCommand),
    ~ In (cmd_command cmd) PlayGuardSDK.known_commands ->
    PlayGuardSDK.handleCommand Number_toString doc sdk cmd
    = ([PlayGuardSDK.WsSend
          (Response (PlayGuardSDK.failed cmd
                       ("Unknown command: " ++ cmd_command cmd)))],
       Returns tt).
Proof.
  intros nts doc sdk cmd Hout. unfold PlayGuardSDK.handleCommand.
  rewrite !(not_known_eqb cmd _) by (try exact Hout; cbn; tauto).
  reflexivity.
Qed.

Lemma unknown_command_fails_witness :
  PlayGuardSDK.handleCommand Examples.digits Examples.page Examples.game
    (Examples.command "20" "" None)
  = ([PlayGuardSDK.WsSend
        (Response (PlayGuardSDK.failed (Examples.command "20" "" None)
                     "Unknown command: "))],
     Returns tt)
  /\ PlayGuardSDK.handleCommand Examples.digits Examples.page Examples.game
       (Examples.command "21" "Ping" None)
     = ([PlayGuardSDK.WsSend
           (Response (PlayGuardSDK.failed (Examples.command "21" "Ping" None)
                        "Unknown command: Ping"))],
        Returns tt).
Proof.
  split.
  - apply (unknown_command_fails Examples.digits Examples.page Examples.game
             (Examples.command "20" "" None)).
    cbn. intros H. repeat destruct H as [H|H]; try discriminate H; exact H.
  - apply (unknown_command_fails Examples.digits Examples.page Examples.game
             (Examples.command "21" "Ping" None)).
    cbn. intros H. repeat destruct H as [H|H]; try discriminate H; exact H.
Defined.

(** X5. [getCustomProperty], [executeCustomAction] and
    [executeCustomCommand] for a name that is not registered answer one
    failure response, ["Property '<name>' not found"] and its like, and
    call nothing.  A [name] that is missing or is not a string is never
    registered, whatever the registry holds: with no parameters at all
    the answer is ["Property 'undefined' not found"]. *)
Theorem unregistered_name_fails :
  forall (Number_toString : Q -> string) (doc : PlayGuardSDK.Document)
         (sdk : PlayGuardSDK.t) (cmd : PlayGuardCommand),
    let name := PlayGuardSDK.parameter (cmd_parameters cmd) "name" in
    let run := PlayGuardSDK.handleCommand Number_toString doc sdk cmd in
    let failure (kind : string) :=
      ([PlayGuardSDK.WsSend
          (Response (PlayGuardSDK.failed cmd
                       (kind ++ " '" ++ String_ Number_toString name
                        ++ "' not found")))],
       Returns tt) in
    (cmd_command cmd = "getCustomProperty" ->
     Map_get (PlayGuardSDK.properties sdk) name = None ->
     run = failure "Property")
    /\ (cmd_command cmd = "executeCustomAction" ->
        Map_get (PlayGuardSDK.actions sdk) name = None ->
        run = failure "Action")
    /\ (cmd_command cmd = "executeCustomCommand" ->
        Map_get (PlayGuardSDK.commands sdk) name = None ->
        run = failure "Command")
    /\ ((forall s, name <> VStr s) ->
        Map_get (PlayGuardSDK.properties sdk) name = None
        /\ Map_get (PlayGuardSDK.actions sdk) name = None
        /\ Map_get (PlayGuardSDK.commands sdk) name = None).
Proof.
  intros nts doc sdk cmd name run failure. subst run failure.
  repeat match goal with |- _ /\ _ => split end.
  - intros Hcmd Hget. unfold PlayGuardSDK.handleCommand. rewrite Hcmd. cbn.
    fold name. rewrite Hget. unfold PlayGuardSDK.failed. rewrite Hcmd.
    reflexivity.
  - intros Hcmd Hget. unfold PlayGuardSDK.handleCommand. rewrite Hcmd. cbn.
    fold name. rewrite Hget. unfold PlayGuardSDK.failed. rewrite Hcmd.
    reflexivity.
  - intros Hcmd Hget. unfold PlayGuardSDK.handleCommand. rewrite Hcmd. cbn.
    fold name. rewrite Hget. unfold PlayGuardSDK.failed. rewrite Hcmd.
    reflexivity.
  - intros Hname. destruct name; try (repeat split; reflexivity).
    destruct (Hname s eq_refl).
Qed.

Lemma unregistered_name_fails_witness :
  PlayGuardSDK.handleCommand Examples.digits Examples.page Examples.game
    (Examples.command "30" "getCustomProperty" None)
  = ([PlayGuardSDK.WsSend
        (Response (PlayGuardSDK.failed
                     (Examples.command "30" "getCustomProperty" None)
                     "Property 'undefined' not found"))],
     Returns tt)
  /\ PlayGuardSDK.handleCommand Examples.digits Examples.page Examples.game
       (Examples.named "31" "executeCustomAction" "score")
     = ([PlayGuardSDK.WsSend
           (Response (PlayGuardSDK.failed
                        (Examples.named "31" "executeCustomAction" "score")
                        "Action 'score' not found"))],
        Returns tt)
  /\ PlayGuardSDK.handleCommand Examples.digits Examples.page Examples.game
       (Examples.command "32" "executeCustomCommand"
          (Some [("name", VNum 1)]))
     = ([PlayGuardSDK.WsSend
           (Response (PlayGuardSDK.failed
                        (Examples.command "32" "executeCustomCommand"
                           (Some [("name", VNum 1)]))
                        "Command '1' not found"))],
        Returns tt).
Proof.
  split; [|split].
  - destruct (unregistered_name_fails Examples.digits Examples.page
                Examples.game (Examples.command "30" "getCustomProperty" None))
      as (Hcase & _ & _ & Hmissing).
    apply Hcase; [reflexivity|]. apply Hmissing. discriminate.
  - destruct (unregistered_name_fails Examples.digits Examples.page
                Examples.game
                (Examples.named "31" "executeCustomAction" "score"))
      as (_ & Hcase & _).
    apply Hcase; reflexivity.
  - destruct (unregistered_name_fails Examples.digits Examples.page
                Examples.game
                (Examples.command "32" "executeCustomCommand"
                   (Some [("name", VNum 1)])))
      as (_ & _ & Hcase & Hmissing).
    apply Hcase; [reflexivity|]. apply Hmissing. discriminate.
Defined.

(** X6. Only [tapElement] touches the document: for every other command,
    whatever the callbacks do, the dispatcher dispatches no event and
    makes no hit test.  Only [tapElement] and [getUIElements] call a
    position getter. *)
Theorem document_touched_only_by_tapElement :
  forall (Number_toString : Q -> string) (doc : PlayGuardSDK.Document)
         (sdk : PlayGuardSDK.t) (cmd : PlayGuardCommand),
    let tr := PlayGuardSDK.trace
                (PlayGuardSDK.handleCommand Number_toString doc sdk cmd) in
    (cmd_command cmd <> "tapElement" ->
     PlayGuardSDK.dispatched tr = [] /\ PlayGuardSDK.hit_tests tr = [])
    /\ (cmd_command cmd <> "tapElement" ->
        cmd_command cmd <> "getUIElements" ->
        PlayGuardSDK.positions_read tr = []).
Proof.
  intros nts doc sdk cmd tr. subst tr.
  unfold PlayGuardSDK.handleCommand. cbv zeta.
  repeat match goal with
         | |- context [if String.eqb (cmd_command cmd) ?s then _ else _] =>
             destruct (String.eqb (cmd_command cmd) s) eqn:?
         end;
    try (split; intros; repeat split; reflexivity).
  - destruct (Map_get (PlayGuardSDK.properties sdk) _) as [getter|];
      [destruct (getter tt)|]; split; intros; repeat split; reflexivity.
  - destruct (Map_get (PlayGuardSDK.actions sdk) _) as [fn|];
      [destruct (fn _)|]; split; intros; repeat split; reflexivity.
  - destruct (Map_get (PlayGuardSDK.commands sdk) _) as [fn|];
      [destruct (fn _)|]; split; intros; repeat split; reflexivity.
  - destruct (describe_silent (Map_values (PlayGuardSDK.elements sdk)))
      as (_ & Hdispatched & Hhit).
    split.
    + intros _.
      destruct (PlayGuardSDK.map_M PlayGuardSDK.describe_element _)
        as [tr [entries|e]];
        unfold PlayGuardSDK.trace in *; cbn [fst] in *.
      * unfold PlayGuardSDK.bind, PlayGuardSDK.respond, PlayGuardSDK.perform.
        cbn [fst]. unfold PlayGuardSDK.dispatched, PlayGuardSDK.hit_tests in *.
        rewrite !flat_map_app, Hdispatched, Hhit. split; reflexivity.
      * split; assumption.
    + intros _ Hnot. apply String.eqb_eq in Heqb6. contradiction.
  - apply String.eqb_eq in Heqb7. split; intros Hnot; contradiction.
Qed.

Lemma document_touched_only_by_tapElement_witness :
  let tr := PlayGuardSDK.trace
              (PlayGuardSDK.handleCommand Examples.digits Examples.page
                 Examples.game
                 (Examples.named "40" "executeCustomAction" "giveCoins")) in
  (PlayGuardSDK.dispatched tr = [] /\ PlayGuardSDK.hit_tests tr = [])
  /\ PlayGuardSDK.positions_read tr = [].
Proof.
  destruct (document_touched_only_by_tapElement Examples.digits Examples.page
              Examples.game
              (Examples.named "40" "executeCustomAction" "giveCoins"))
    as (Hdoc & Hpos).
  split; [apply Hdoc | apply Hpos]; discriminate.
Defined.

(** X7. [executeCustomCommand] for a registered handler that returns
    calls the handler once, with [param] or with the empty string when
    [param] is missing, and answers [success: true] with the handler's
    result as [data], verbatim; a result that is [undefined] gives a
    response without [data]. *)
Theorem executeCustomCommand_returns_result :
  forall (Number_toString : Q -> string) (doc : PlayGuardSDK.Document)
         (sdk : PlayGuardSDK.t) (cmd : PlayGuardCommand)
         (fn : CommandHandler) (result : value),
    let name := PlayGuardSDK.parameter (cmd_parameters cmd) "name" in
    let param :=
      default_to (VStr "")
                 (PlayGuardSDK.parameter (cmd_parameters cmd) "param") in
    cmd_command cmd = "executeCustomCommand" ->
    Map_get (PlayGuardSDK.commands sdk) name = Some fn ->
    fn param = Returns result ->
    PlayGuardSDK.handleCommand Number_toString doc sdk cmd
    = ([PlayGuardSDK.CallCommand (String_ Number_toString name) param;
        PlayGuardSDK.WsSend
          (Response (PlayGuardSDK.succeeded cmd
                       match result with
                       | VUndefined => None
                       | _ => Some result
                       end))],
       Returns tt).
Proof.
  intros nts doc sdk cmd fn result name param Hcmd Hget Hfn.
  unfold PlayGuardSDK.handleCommand. rewrite Hcmd.
  cbn -[default_to]. fold name. rewrite Hget. fold param.
  unfold PlayGuardSDK.invoke, PlayGuardSDK.bind, PlayGuardSDK.try_catch.
  rewrite Hfn. cbn. unfold PlayGuardSDK.succeeded. rewrite Hcmd. reflexivity.
Qed.

Lemma executeCustomCommand_returns_result_witness :
  PlayGuardSDK.sent
    (PlayGuardSDK.trace
       (PlayGuardSDK.handleCommand Examples.digits Examples.page Examples.game
          (Examples.named "50" "executeCustomCommand" "getState")))
  = [Response (PlayGuardSDK.succeeded
                 (Examples.named "50" "executeCustomCommand" "getState")
                 (Some (VObj [("level", VNum 1); ("echo", VStr "")])))]
  /\ PlayGuardSDK.sent
       (PlayGuardSDK.trace
          (PlayGuardSDK.handleCommand Examples.digits Examples.page
             Examples.game
             (Examples.named "51" "executeCustomCommand" "silent")))
     = [Response (PlayGuardSDK.succeeded
                    (Examples.named "51" "executeCustomCommand" "silent")
                    None)].
Proof.
  split.
  - rewrite (executeCustomCommand_returns_result Examples.digits Examples.page
               Examples.game
               (Examples.named "50" "executeCustomCommand" "getState")
               Examples.getState
               (VObj [("level", VNum 1); ("echo", VStr "")])
               eq_refl eq_refl eq_refl).
    reflexivity.
  - rewrite (executeCustomCommand_returns_result Examples.digits Examples.page
               Examples.game
               (Examples.named "51" "executeCustomCommand" "silent")
               Examples.silent VUndefined eq_refl eq_refl eq_refl).
    reflexivity.
Defined.

(** X8. [executeCustomAction] for a registered action that returns calls
    the action once, with [args] or with the empty list when [args] is
    missing, and answers [success: true] with neither [data] nor
    [error]. *)
Theorem executeCustomAction_succeeds_without_data :
  forall (Number_toString : Q -> string) (doc : PlayGuardSDK.Document)
         (sdk : PlayGuardSDK.t) (cmd : PlayGuardCommand) (fn : ActionHandler),
    let name := PlayGuardSDK.parameter (cmd_parameters cmd) "name" in
    let args :=
      default_to (VArr [])
                 (PlayGuardSDK.parameter (cmd_parameters cmd) "args") in
    cmd_command cmd = "executeCustomAction" ->
    Map_get (PlayGuardSDK.actions sdk) name = Some fn ->
    fn args = Returns tt ->
    PlayGuardSDK.handleCommand Number_toString doc sdk cmd
    = ([PlayGuardSDK.CallAction (String_ Number_toString name) args;
        PlayGuardSDK.WsSend (Response (PlayGuardSDK.succeeded cmd None))],
       Returns tt).
Proof.
  intros nts doc sdk cmd fn name args Hcmd Hget Hfn.
  unfold PlayGuardSDK.handleCommand. rewrite Hcmd.
  cbn -[default_to]. fold name. rewrite Hget. fold args.
  unfold PlayGuardSDK.invoke, PlayGuardSDK.bind, PlayGuardSDK.try_catch.
  rewrite Hfn. cbn. unfold PlayGuardSDK.succeeded. rewrite Hcmd. reflexivity.
Qed.

Lemma executeCustomAction_succeeds_without_data_witness :
  PlayGuardSDK.handleCommand Examples.digits Examples.page Examples.game
    (Examples.named "52" "executeCustomAction" "giveCoins")
  = ([PlayGuardSDK.CallAction "giveCoins" (VArr []);
      PlayGuardSDK.WsSend
        (Response (PlayGuardSDK.succeeded
                     (Examples.named "52" "executeCustomAction" "giveCoins")
                     None))],
     Returns tt).
Proof.
  apply (executeCustomAction_succeeds_without_data Examples.digits
           Examples.page Examples.game
           (Examples.named "52" "executeCustomAction" "giveCoins")
           Examples.giveCoins); reflexivity.
Defined.

(** ** The registry and the dispatcher together *)

Section RegistryMore.

Variable V : Type.

Lemma Map_set_get_other (m : Map V) (k : string) (v : V) (key : value) :
  key <> VStr k -> Map_get (Map_set m k v) key = Map_get m key.
Proof.
  destruct key; try reflexivity. intros Hne. cbn.
  assert (Hk : String.eqb k s = false).
  { apply String.eqb_neq. congruence. }
  induction m as [|[k' v'] rest IH]; cbn.
  - now rewrite Hk.
  - destruct (String.eqb k' k) eqn:Hk'; cbn.
    + apply String.eqb_eq in Hk'. subst k'. now rewrite Hk.
    + destruct (String.eqb k' s); [reflexivity | exact IH].
Qed.

Lemma Map_set_In_keys (m : Map V) (k : string) (v : V) (n : string) :
  In n (Map_keys (Map_set m k v)) <-> n = k \/ In n (Map_keys m).
Proof.
  rewrite Map_set_keys.
  destruct (existsb (String.eqb k) (Map_keys m)) eqn:Hin.
  - apply existsb_exists in Hin. destruct Hin as (k' & Hk' & Heq).
    apply String.eqb_eq in Heq. subst k'. split; [tauto|].
    intros [->|H]; assumption.
  - rewrite in_app_iff. cbn. split; [intros [H|[H|[]]] | intros [H|H]]; auto.
Qed.

Lemma Map_set_NoDup (m : Map V) (k : string) (v : V) :
  NoDup (Map_keys m) -> NoDup (Map_keys (Map_set m k v)).
Proof.
  intros Hm. rewrite Map_set_keys.
  destruct (existsb (String.eqb k) (Map_keys m)) eqn:Hin; [exact Hm|].
  apply NoDup_app; [exact Hm | repeat constructor; intros [] |].
  intros n Hn [Heq|[]]. subst n.
  assert (Hex : existsb (String.eqb k) (Map_keys m) = true).
  { apply existsb_exists. exists k. split; [exact Hn | apply String.eqb_refl]. }
  congruence.
Qed.

End RegistryMore.

(** X9. Registration is last-write-wins and touches one name only.
    After [registerProperty(n, getter)], a [getCustomProperty] for [n]
    calls that getter, whatever was registered under [n] before, and
    answers with [{value: String(v)}], the value always a string; a
    command that is not [listCustomProperties] and not a
    [getCustomProperty] for [n] is handled exactly as before the
    registration. *)
Theorem registerProperty_then_get :
  forall (Number_toString : Q -> string) (doc : PlayGuardSDK.Document)
         (sdk : PlayGuardSDK.t) (n : string) (getter : PropertyGetter),
    let sdk' := PlayGuardSDK.registerProperty sdk n getter in
    (forall cmd v,
        cmd_command cmd = "getCustomProperty" ->
        PlayGuardSDK.parameter (cmd_parameters cmd) "name" = VStr n ->
        getter tt = Returns v ->
        PlayGuardSDK.handleCommand Number_toString doc sdk' cmd
        = ([PlayGuardSDK.CallProperty n;
            PlayGuardSDK.WsSend
              (Response
                 (PlayGuardSDK.succeeded cmd
                    (Some (VObj [("value",
                                  VStr (String_ Number_toString v))]))))],
           Returns tt))
    /\ (forall cmd,
          cmd_command cmd <> "listCustomProperties" ->
          (cmd_command cmd = "getCustomProperty" ->
           PlayGuardSDK.parameter (cmd_parameters cmd) "name" <> VStr n) ->
          PlayGuardSDK.handleCommand Number_toString doc sdk' cmd
          = PlayGuardSDK.handleCommand Number_toString doc sdk cmd).
Proof.
  intros nts doc sdk n getter sdk'. subst sdk'. split.
  - intros cmd v Hcmd Hname Hget.
    unfold PlayGuardSDK.handleCommand. rewrite Hcmd. cbn -[Map_get].
    rewrite Hname, Map_set_get.
    unfold PlayGuardSDK.invoke, PlayGuardSDK.bind, PlayGuardSDK.try_catch.
    rewrite Hget. cbn. unfold PlayGuardSDK.succeeded. rewrite Hcmd.
    reflexivity.
  - intros cmd Hlist Hother. unfold PlayGuardSDK.handleCommand. cbv zeta.
    destruct (String.eqb (cmd_command cmd) "ping"); [reflexivity|].
    destruct (String.eqb (cmd_command cmd) "listCustomProperties") eqn:Hl.
    { apply String.eqb_eq in Hl. contradiction. }
    destruct (String.eqb (cmd_command cmd) "listCustomActions");
      [reflexivity|].
    destruct (String.eqb (cmd_command cmd) "listCustomCommands");
      [reflexivity|].
    destruct (String.eqb (cmd_command cmd) "getCustomProperty") eqn:Hg;
      [|reflexivity].
    apply String.eqb_eq in Hg. cbn [PlayGuardSDK.properties
                                      PlayGuardSDK.registerProperty].
    rewrite Map_set_get_other by (apply Hother, Hg). reflexivity.
Qed.

Lemma registerProperty_then_get_witness :
  PlayGuardSDK.handleCommand Examples.digits Examples.page
    (PlayGuardSDK.registerProperty Examples.game "stale" Examples.score)
    (Examples.named "60" "getCustomProperty" "stale")
  = ([PlayGuardSDK.CallProperty "stale";
      PlayGuardSDK.WsSend
        (Response
           (PlayGuardSDK.succeeded
              (Examples.named "60" "getCustomProperty" "stale")
              (Some (VObj [("value", VStr "2")]))))],
     Returns tt)
  /\ PlayGuardSDK.handleCommand Examples.digits Examples.page
       (PlayGuardSDK.registerProperty Examples.game "stale" Examples.score)
       (Examples.named "61" "getCustomProperty" "score")
     = PlayGuardSDK.handleCommand Examples.digits Examples.page
         Examples.game (Examples.named "61" "getCustomProperty" "score").
Proof.
  destruct (registerProperty_then_get Examples.digits Examples.page
              Examples.game "stale" Examples.score) as (Hget & Hframe).
  split.
  - apply (Hget (Examples.named "60" "getCustomProperty" "stale") (VNum 2));
      reflexivity.
  - apply Hframe; [discriminate|]. intros _. discriminate.
Defined.

Lemma register_properties_keys
    (registrations : list (string * PropertyGetter)) :
  forall sdk,
    NoDup (Map_keys (PlayGuardSDK.properties sdk)) ->
    let keys := Map_keys (PlayGuardSDK.properties
                            (PlayGuardSDK.register_properties sdk
                               registrations)) in
    NoDup keys
    /\ (forall n, In n keys <->
                  In n (Map_keys (PlayGuardSDK.properties sdk))
                  \/ In n (map fst registrations)).
Proof.
  induction registrations as [|[k getter] rest IH]; intros sdk Hsdk;
    cbn [PlayGuardSDK.register_properties map fst].
  - split; [exact Hsdk|]. intros n. cbn. tauto.
  - destruct (IH (PlayGuardSDK.registerProperty sdk k getter)) as (Hdup & Hin).
    { cbn [PlayGuardSDK.properties PlayGuardSDK.registerProperty].
      apply Map_set_NoDup, Hsdk. }
    split; [exact Hdup|]. intros n. rewrite Hin.
    cbn [PlayGuardSDK.properties PlayGuardSDK.registerProperty].
    rewrite Map_set_In_keys. cbn [In]. intuition congruence.
Qed.

(** X10. However many times and in whatever order properties were
    registered on a new SDK, [listCustomProperties] answers
    [success: true] with a list in which every registered name occurs
    exactly once and no other name occurs. *)
Theorem listCustomProperties_each_name_once :
  forall (Number_toString : Q -> string) (doc : PlayGuardSDK.Document)
         (registrations : list (string * PropertyGetter))
         (cmd : PlayGuardCommand),
    cmd_command cmd = "listCustomProperties" ->
    let sdk := PlayGuardSDK.register_properties PlayGuardSDK.empty
                 registrations in
    exists names,
      PlayGuardSDK.handleCommand Number_toString doc sdk cmd
      = ([PlayGuardSDK.WsSend
            (Response
               (PlayGuardSDK.succeeded cmd
                  (Some (VObj [("properties", VArr (map VStr names))]))))],
         Returns tt)
      /\ NoDup names
      /\ (forall n, In n names <-> In n (map fst registrations)).
Proof.
  intros nts doc registrations cmd Hcmd sdk.
  exists (Map_keys (PlayGuardSDK.properties sdk)).
  destruct (register_properties_keys registrations PlayGuardSDK.empty)
    as (Hdup & Hin); [constructor|].
  fold sdk in Hdup, Hin. split; [|split].
  - unfold PlayGuardSDK.handleCommand. rewrite Hcmd. cbn.
    unfold PlayGuardSDK.succeeded, PlayGuardSDK.strings. rewrite Hcmd.
    reflexivity.
  - exact Hdup.
  - intros n. rewrite Hin. cbn. tauto.
Qed.

Lemma listCustomProperties_each_name_once_witness :
  let registrations := [("score", Examples.score); ("lives", Examples.stale);
                        ("score", Examples.stale)] in
  let cmd := Examples.command "70" "listCustomProperties" None in
  exists names,
    PlayGuardSDK.handleCommand Examples.digits Examples.page
      (PlayGuardSDK.register_properties PlayGuardSDK.empty registrations) cmd
    = ([PlayGuardSDK.WsSend
          (Response
             (PlayGuardSDK.succeeded cmd
                (Some (VObj [("properties", VArr (map VStr names))]))))],
       Returns tt)
    /\ NoDup names
    /\ (forall n, In n names <-> In n (map fst registrations)).
Proof.
  apply (listCustomProperties_each_name_once Examples.digits Examples.page
           [("score", Examples.score); ("lives", Examples.stale);
            ("score", Examples.stale)]
           (Examples.command "70" "listCustomProperties" None)).
  reflexivity.
Defined.

(** The names come in the order of their first registration. *)
Example listCustomProperties_order :
  PlayGuardSDK.sent
    (PlayGuardSDK.trace
       (PlayGuardSDK.handleCommand Examples.digits Examples.page
          (PlayGuardSDK.register_properties PlayGuardSDK.empty
             [("score", Examples.score); ("lives", Examples.stale);
              ("score", Examples.stale)])
          (Examples.command "70" "listCustomProperties" None)))
  = [Response
       (PlayGuardSDK.succeeded
          (Examples.command "70" "listCustomProperties" None)
          (Some (VObj [("properties", VArr [VStr "score"; VStr "lives"])])))].
Proof. reflexivity. Qed.

(** ** The pointer listener *)

Lemma registerElement_monitoring_active (sdk : PlayGuardSDK.t) (n : string)
    (getter : unit -> outcome (option Position)) :
  PlayGuardSDK.clickMonitoringActive
    (fst (PlayGuardSDK.registerElement_monitoring sdk n getter)) = true
  /\ snd (PlayGuardSDK.registerElement_monitoring sdk n getter)
     = if PlayGuardSDK.clickMonitoringActive sdk then []
       else [PlayGuardSDK.AddPointerDownListener].
Proof.
  unfold PlayGuardSDK.registerElement_monitoring. cbn.
  destruct (PlayGuardSDK.clickMonitoringActive sdk) eqn:Hactive; cbn;
    rewrite ?Hactive; split; reflexivity.
Qed.

(** X11. In the revision that listens to [pointerdown], any run of
    [registerElement] calls installs the listener exactly once, with the
    first call, when monitoring was off, and never when monitoring was
    already on; afterwards monitoring is on. *)
Theorem pointer_listener_installed_once :
  forall (registrations :
            list (string * (unit -> outcome (option Position))))
         (sdk : PlayGuardSDK.t),
    snd (PlayGuardSDK.register_elements sdk registrations)
    = (if PlayGuardSDK.clickMonitoringActive sdk then []
       else match registrations with
            | [] => []
            | _ :: _ => [PlayGuardSDK.AddPointerDownListener]
            end)
    /\ PlayGuardSDK.clickMonitoringActive
         (fst (PlayGuardSDK.register_elements sdk registrations))
       = match registrations with
         | [] => PlayGuardSDK.clickMonitoringActive sdk
         | _ :: _ => true
         end.
Proof.
  induction registrations as [|[n getter] rest IH]; intros sdk.
  - cbn. destruct (PlayGuardSDK.clickMonitoringActive sdk); split; reflexivity.
  - cbn [PlayGuardSDK.register_elements].
    destruct (registerElement_monitoring_active sdk n getter)
      as (Hactive & Hout).
    destruct (PlayGuardSDK.registerElement_monitoring sdk n getter)
      as [sdk1 out1]. cbn [fst snd] in Hactive, Hout.
    destruct (IH sdk1) as (IHout & IHactive).
    destruct (PlayGuardSDK.register_elements sdk1 rest) as [sdk2 out2].
    cbn [fst snd] in *. rewrite Hactive in IHout. subst out1 out2.
    split.
    + destruct (PlayGuardSDK.clickMonitoringActive sdk); reflexivity.
    + rewrite IHactive. destruct rest; [exact Hactive | reflexivity].
Qed.

(** ** The tap router on every input *)

Section RouterTotal.
Import PlayGuardSDK.

Variable doc : Document.
Variables cx cy : Q.

(** What a loop of the router may leave in its trace: position reads,
    hit tests and [elementTapped] events. *)
Local Abbreviation router_effect e :=
  (match e with
   | GetPosition _ | ElementFromPoint _ _ => True
   | WsSend (Event ev) => ev_event ev = "elementTapped"
   | _ => False
   end).

Lemma router_effects_observed (tr : list Effect) :
  Forall (fun e => router_effect e) tr ->
  responses tr = [] /\ dispatched tr = []
  /\ Forall (fun ev => ev_event ev = "elementTapped") (events tr).
Proof.
  induction 1 as [|e rest He _ (IHr & IHd & IHe)]; [repeat constructor|].
  destruct e as [ | | | | | | |[r|ev]]; try destruct He;
    cbn; repeat split; auto.
Qed.

Lemma dom_loop_effects (tapped : Node)
    (entries : list (string * ElementDescriptor)) :
  Forall (fun e => router_effect e)
         (trace (dom_loop doc cx cy tapped entries)).
Proof.
  induction entries as [|[n el] rest IH]; [constructor|].
  cbn [dom_loop]. unfold invoke, bind at 1.
  destruct (getPosition el tt) as [[pos|]|e]; [| |repeat constructor].
  - unfold hit_test, invoke, bind at 1.
    destruct (elementFromPoint doc (x pos) (y pos)) as [node|].
    + destruct (is_canvas doc node).
      * destruct (dom_loop doc cx cy tapped rest) as [tr r].
        repeat constructor. exact IH.
      * destruct (dom_match doc node tapped); [repeat constructor|].
        destruct (dom_loop doc cx cy tapped rest) as [tr r].
        repeat constructor. exact IH.
    + destruct (dom_loop doc cx cy tapped rest) as [tr r].
      repeat constructor. exact IH.
  - destruct (dom_loop doc cx cy tapped rest) as [tr r].
    repeat constructor. exact IH.
Qed.

(** The canvas loop sends nothing itself: it only reads positions. *)
Lemma canvas_loop_reads_only
    (entries : list (string * ElementDescriptor)) :
  forall st,
    Forall (fun e => match e with GetPosition _ => True | _ => False end)
           (trace (canvas_loop cx cy entries st)).
Proof.
  induction entries as [|[n el] rest IH]; intros st; [constructor|].
  cbn [canvas_loop]. unfold invoke, bind at 1.
  destruct (getPosition el tt) as [[pos|]|e]; [| |repeat constructor].
  - destruct (Root_ltb _ _);
      match goal with
      | |- context [canvas_loop cx cy rest ?s] =>
          specialize (IH s); destruct (canvas_loop cx cy rest s) as [tr r]
      end; repeat constructor; exact IH.
  - specialize (IH st). destruct (canvas_loop cx cy rest st) as [tr r].
    repeat constructor. exact IH.
Qed.

Lemma reads_are_router_effects (tr : list Effect) :
  Forall (fun e => match e with GetPosition _ => True | _ => False end) tr ->
  Forall (fun e => router_effect e) tr /\ sent tr = [].
Proof.
  induction 1 as [|e rest He _ (IHf & IHs)]; [split; constructor|].
  destruct e; try destruct He. split; [constructor; auto | exact IHs].
Qed.

End RouterTotal.

Section RouterBranches.
Import PlayGuardSDK.

Variable doc : Document.
Variables cx cy : Q.

Local Abbreviation router_effect e :=
  (match e with
   | GetPosition _ | ElementFromPoint _ _ => True
   | WsSend (Event ev) => ev_event ev = "elementTapped"
   | _ => False
   end).

Lemma trace_after_effect {A B} (e : Effect) (a : A) (k : A -> M B) :
  trace (bind ([e], Returns a) k) = e :: trace (k a).
Proof. unfold bind, trace. destruct (k a). reflexivity. Qed.

(** The canvas branch as a whole: position reads, then at most one
    event. *)
Lemma canvas_branch_effects (entries : list (string * ElementDescriptor)) :
  let branch :=
    bind (canvas_loop cx cy entries
            {| closestName := None; closestDist := Root_of THRESHOLD;
               closestPos := None |})
         (fun st =>
            match closestName st with
            | Some name =>
                match closestPos st with
                | Some pos =>
                    sendEvent "elementTapped"
                      (canvas_event name cx cy pos (closestDist st))
                | None => ([], Throws (VStr "TypeError"))
                end
            | None => ret tt
            end) in
  Forall (fun e => router_effect e) (trace branch)
  /\ (length (sent (trace branch)) <= 1)%nat.
Proof.
  intros branch. subst branch.
  pose proof (canvas_loop_reads_only cx cy entries
                {| closestName := None; closestDist := Root_of THRESHOLD;
                   closestPos := None |}) as Hreads.
  apply reads_are_router_effects in Hreads.
  destruct Hreads as (Hreads & Hsilent).
  destruct (canvas_loop cx cy entries _) as [trl [st|err]];
    unfold trace in *; cbn [fst] in *.
  - unfold bind.
    destruct (closestName st) as [chosen|];
      [destruct (closestPos st) as [pos|]|];
      unfold sendEvent, perform, ret; cbn [fst];
      rewrite ?app_nil_r, ?sent_app, ?Hsilent;
      (split; [|cbn; lia]); try exact Hreads.
    apply Forall_app. split; [exact Hreads|]. repeat constructor.
  - unfold bind. cbn [fst]. rewrite Hsilent.
    split; [exact Hreads | cbn; lia].
Qed.

End RouterBranches.

(** X12. Whatever is registered and whatever the getters do, one
    [pointerdown] makes the router send at most one message, which is an
    [elementTapped] event; the router never sends a response and never
    dispatches an event to the document.  With no element registered it
    does nothing at all, not even a hit test; when no node lies under the
    pointer it sends nothing and calls no getter. *)
Theorem onPointerDown_at_most_one_event :
  forall (doc : PlayGuardSDK.Document) (sdk : PlayGuardSDK.t)
         (e : PlayGuardSDK.DomEvent),
    let cx := PlayGuardSDK.clientX (PlayGuardSDK.event_init e) in
    let cy := PlayGuardSDK.clientY (PlayGuardSDK.event_init e) in
    let tr := PlayGuardSDK.trace (PlayGuardSDK.onPointerDown doc sdk e) in
    (length (PlayGuardSDK.sent tr) <= 1)%nat
    /\ PlayGuardSDK.responses tr = []
    /\ PlayGuardSDK.dispatched tr = []
    /\ Forall (fun ev => ev_event ev = "elementTapped")
              (PlayGuardSDK.events tr)
    /\ (PlayGuardSDK.elements sdk = [] -> tr = [])
    /\ (PlayGuardSDK.elementFromPoint doc cx cy = None ->
        PlayGuardSDK.sent tr = [] /\ PlayGuardSDK.positions_read tr = []).
Proof.
  intros doc sdk e cx cy tr.
  assert (Hall : Forall (fun eff =>
                           match eff with
                           | PlayGuardSDK.GetPosition _
                           | PlayGuardSDK.ElementFromPoint _ _ => True
                           | PlayGuardSDK.WsSend (Event ev) =>
                               ev_event ev = "elementTapped"
                           | _ => False
                           end) tr
                 /\ (length (PlayGuardSDK.sent tr) <= 1)%nat
                 /\ (PlayGuardSDK.elements sdk = [] -> tr = [])
                 /\ (PlayGuardSDK.elementFromPoint doc cx cy = None ->
                     PlayGuardSDK.sent tr = []
                     /\ PlayGuardSDK.positions_read tr = [])).
  { subst tr. unfold PlayGuardSDK.onPointerDown. fold cx cy.
    destruct (Nat.eqb (Map_size (PlayGuardSDK.elements sdk)) 0) eqn:Hsize.
    { cbn. repeat split; auto. }
    assert (Hsome : PlayGuardSDK.elements sdk = [] -> False).
    { intros Hnil. rewrite Hnil in Hsize. discriminate Hsize. }
    unfold PlayGuardSDK.hit_test, PlayGuardSDK.invoke.
    rewrite trace_after_effect.
    destruct (PlayGuardSDK.elementFromPoint doc cx cy) as [tapped|].
    - assert (Hhit : forall t,
                PlayGuardSDK.sent (PlayGuardSDK.ElementFromPoint cx cy :: t)
                = PlayGuardSDK.sent t) by reflexivity.
      rewrite Hhit.
      destruct (PlayGuardSDK.is_canvas doc tapped); cbn [negb].
      + destruct (canvas_branch_effects cx cy (PlayGuardSDK.elements sdk))
          as (Heff & Hone).
        split; [constructor; [exact I | exact Heff]|].
        split; [exact Hone|].
        split; [intros Hnil; destruct (Hsome Hnil) | discriminate].
      + split; [constructor; [exact I | apply dom_loop_effects]|].
        split; [apply dom_loop_sends_at_most_one|].
        split; [intros Hnil; destruct (Hsome Hnil) | discriminate].
    - cbn. repeat split; auto.
      intros Hnil. destruct (Hsome Hnil). }
  destruct Hall as (Heff & Hone & Hnone & Hmiss).
  destruct (router_effects_observed tr Heff) as (Hr & Hd & He).
  repeat split; auto; apply Hmiss; assumption.
Qed.

Lemma onPointerDown_at_most_one_event_witness :
  PlayGuardSDK.trace
    (PlayGuardSDK.onPointerDown Examples.page (Examples.registry [])
       (Examples.pointerdown 10 10)) = []
  /\ PlayGuardSDK.positions_read
       (PlayGuardSDK.trace
          (PlayGuardSDK.onPointerDown Examples.page
             (Examples.registry [Examples.login; Examples.broken])
             (Examples.pointerdown 500 10))) = [].
Proof.
  split.
  - destruct (onPointerDown_at_most_one_event Examples.page
                (Examples.registry []) (Examples.pointerdown 10 10))
      as (_ & _ & _ & _ & Hnone & _).
    apply Hnone. reflexivity.
  - destruct (onPointerDown_at_most_one_event Examples.page
                (Examples.registry [Examples.login; Examples.broken])
                (Examples.pointerdown 500 10))
      as (_ & _ & _ & _ & _ & Hmiss).
    apply Hmiss. reflexivity.
Defined.

(** ** The canvas branch: what is reported *)

Section CanvasReport.
Import PlayGuardSDK.

Variable doc : Document.
Variable e : DomEvent.
Variable tapped : Node.

Local Abbreviation cx := (clientX (event_init e)).
Local Abbreviation cy := (clientY (event_init e)).

Hypothesis on_canvas : elementFromPoint doc cx cy = Some tapped.
Hypothesis is_a_canvas : is_canvas doc tapped = true.

(** The messages of a tap on the canvas, read off the final state of the
    loop, which satisfies the invariant for all the candidates. *)
Lemma canvas_tap_sent (sdk : PlayGuardSDK.t) :
  Forall returns_position (Map_values (elements sdk)) ->
  exists st,
    canvas_invariant cx cy (candidates (elements sdk)) st
    /\ sent (trace (onPointerDown doc sdk e))
       = match closestName st, closestPos st with
         | Some name, Some pos =>
             [Event {| ev_event := "elementTapped";
                       ev_data := canvas_event name cx cy pos
                                    (closestDist st) |}]
         | _, _ => []
         end.
Proof.
  intros Hret.
  destruct (canvas_loop_invariant cx cy (elements sdk) Hret []
              {| closestName := None; closestDist := Root_of THRESHOLD;
                 closestPos := None |}) as (st & Hrun & Hinv).
  { repeat split. intros n p []. }
  cbn [app] in Hinv.
  unfold onPointerDown.
  destruct (Nat.eqb (Map_size (elements sdk)) 0) eqn:Hsize.
  - apply Nat.eqb_eq in Hsize. unfold Map_size in Hsize.
    apply length_zero_iff_nil in Hsize. rewrite Hsize.
    exists {| closestName := None; closestDist := Root_of THRESHOLD;
              closestPos := None |}.
    split; [|reflexivity]. repeat split. intros n p [].
  - exists st. split; [exact Hinv|].
    unfold hit_test, invoke. rewrite trace_after_effect, on_canvas.
    rewrite is_a_canvas. cbn [negb]. rewrite Hrun. unfold bind.
    assert (Hhit : forall t, sent (ElementFromPoint cx cy :: t) = sent t)
      by reflexivity.
    rewrite Hhit. unfold canvas_invariant in Hinv.
    destruct (closestName st) as [name|].
    + destruct Hinv as (pos & _ & _ & Hpos & _). rewrite Hpos.
      unfold sendEvent, perform, trace. cbn [fst].
      rewrite sent_app, sent_get_positions. reflexivity.
    + unfold ret, trace. cbn [fst].
      rewrite app_nil_r. apply sent_get_positions.
Qed.

End CanvasReport.

(** The rounded distance of a position within the threshold is an
    integer from 0 to 35. *)
Lemma rounded_distance_bound (cx cy : Q) (pos : Position) :
  PlayGuardSDK.within_threshold cx cy pos ->
  (0 <= Math_round_root (PlayGuardSDK.distance pos cx cy) <= 35)%Z.
Proof.
  intros Hwithin. apply within_threshold_squares in Hwithin.
  unfold PlayGuardSDK.distance.
  set (q := (x pos - cx) ^ 2 + (y pos - cy) ^ 2) in *.
  assert (Hq : 0 <= q).
  { subst q. set (a := x pos - cx). set (b := y pos - cy).
    assert (Ha : 0 <= a * a) by nra. assert (Hb : 0 <= b * b) by nra.
    change (a ^ 2) with (a * a). change (b ^ 2) with (b * b). lra. }
  destruct (Math_round_root_nearest q Hq) as (Hn & _ & Hlow).
  set (n := Math_round_root (Math_sqrt q)) in *.
  split.
  - change 0 with (inject_Z 0) in Hn. rewrite <- Zle_Qle in Hn. exact Hn.
  - destruct (Z_le_gt_dec n 35) as [Hle|Hgt]; [exact Hle|exfalso].
    assert (H36 : 36 <= inject_Z n).
    { change 36 with (inject_Z 36). rewrite <- Zle_Qle. lia. }
    assert (Hpos : 0 < inject_Z n) by lra.
    specialize (Hlow Hpos). nra.
Qed.

(** X13. The event of a tap on the canvas has [matchType: "canvas"] and
    a [dist] that is an integer from 0 to 35: the distance of the
    reported element, under 35, rounded to the nearest integer. *)
Theorem canvas_event_distance_bound :
  forall (doc : PlayGuardSDK.Document) (sdk : PlayGuardSDK.t)
         (e : PlayGuardSDK.DomEvent) (tapped : PlayGuardSDK.Node),
    let cx := PlayGuardSDK.clientX (PlayGuardSDK.event_init e) in
    let cy := PlayGuardSDK.clientY (PlayGuardSDK.event_init e) in
    PlayGuardSDK.elementFromPoint doc cx cy = Some tapped ->
    PlayGuardSDK.is_canvas doc tapped = true ->
    Forall PlayGuardSDK.returns_position
           (Map_values (PlayGuardSDK.elements sdk)) ->
    forall ev,
      In (Event ev)
         (PlayGuardSDK.sent
            (PlayGuardSDK.trace (PlayGuardSDK.onPointerDown doc sdk e))) ->
      exists fields n,
        ev_data ev = VObj fields
        /\ field fields "matchType" = VStr "canvas"
        /\ field fields "dist" = VNum (inject_Z n)
        /\ (0 <= n <= 35)%Z.
Proof.
  intros doc sdk e tapped cx cy Htap Hcanvas Hret ev Hin.
  destruct (canvas_tap_sent doc e tapped Htap Hcanvas sdk Hret)
    as (st & Hinv & Hsent).
  rewrite Hsent in Hin. unfold PlayGuardSDK.canvas_invariant in Hinv.
  destruct (PlayGuardSDK.closestName st) as [name|]; [|destruct Hin].
  destruct Hinv as (pos & _ & _ & Hpos & Hdist & Hwithin & _).
  rewrite Hpos, Hdist in Hin. destruct Hin as [Hev|[]].
  injection Hev as <-. cbn [ev_data PlayGuardSDK.canvas_event].
  eexists. exists (Math_round_root (PlayGuardSDK.distance pos cx cy)).
  split; [reflexivity|]. split; [reflexivity|]. split; [reflexivity|].
  apply rounded_distance_bound, Hwithin.
Qed.

Lemma canvas_event_distance_bound_witness :
  exists fields n,
    VObj [("element", VStr "lower"); ("matchType", VStr "canvas");
          ("tapX", VNum 100); ("tapY", VNum 170);
          ("elementX", VNum 100); ("elementY", VNum 140);
          ("dist", VNum 30)] = VObj fields
    /\ field fields "matchType" = VStr "canvas"
    /\ field fields "dist" = VNum (inject_Z n)
    /\ (0 <= n <= 35)%Z.
Proof.
  apply (canvas_event_distance_bound Examples.page
           (Examples.registry [Examples.hidden; Examples.upper;
                               Examples.lower])
           (Examples.pointerdown 100 170) 3%nat eq_refl eq_refl
           ltac:(repeat constructor; eexists; reflexivity)
           {| ev_event := "elementTapped";
              ev_data := VObj [("element", VStr "lower");
                               ("matchType", VStr "canvas");
                               ("tapX", VNum 100); ("tapY", VNum 170);
                               ("elementX", VNum 100);
                               ("elementY", VNum 140);
                               ("dist", VNum 30)] |}).
  left. reflexivity.
Defined.




(** ** The transport: reconnecting and writing *)

Section TransportMore.
Import WSClient.

Variable JSON_parse : string -> option PlayGuardCommand.

(** One turn keeps the URL and the delay of the client, and uses them for
    every socket it opens and every timer it schedules; it writes nothing
    but the payload of a [send] call. *)
Lemma step_constants (w : World) (i : Input) :
  url (client (fst (step JSON_parse w i))) = url (client w)
  /\ reconnectDelay (client (fst (step JSON_parse w i)))
     = reconnectDelay (client w)
  /\ Forall (fun u => u = url (client w))
            (urls (snd (step JSON_parse w i)))
  /\ Forall (fun d => d = reconnectDelay (client w))
            (delays (snd (step JSON_parse w i)))
  /\ subsequence (written (snd (step JSON_parse w i))) (requested [i]).
Proof.
  assert (Hmsg : forall c data,
             urls (onmessage JSON_parse c data) = []
             /\ delays (onmessage JSON_parse c data) = []
             /\ written (onmessage JSON_parse c data) = []).
  { intros c data. pose proof (onmessage_quiet JSON_parse c data) as Hq.
    induction Hq as [|o rest Ho _ (IHu & IHd & IHw)]; [repeat split|].
    destruct o; try discriminate Ho; cbn; auto. }
  destruct i as [ | response | | s | s data | s | s | timer ]; unfold step.
  - unfold connect, _connect.
    destruct (ws (client w)); [repeat split; repeat constructor|].
    destruct (destroyed (client w)); [repeat split; repeat constructor|].
    destruct (accepts_url w); cbn; repeat split; repeat constructor.
  - unfold send. destruct (ws (client w)) as [s|];
      [destruct (ReadyState_eqb _ _)|]; cbn;
      repeat split; repeat constructor.
  - destruct w as [c socks acc pend tm].
    destruct c as [s u d rt cn ds om oc od].
    unfold destroy; cbn.
    destruct rt as [timer|]; cbn; destruct s as [s|]; cbn;
      unfold socket_close, readyState; cbn;
      try destruct (nth s socks CLOSED); cbn;
      repeat split; repeat constructor.
  - destruct (readyState w s); try solve [repeat split; repeat constructor].
    unfold onopen. cbn. destruct (onConnected (client w)); cbn;
      repeat split; repeat constructor.
  - destruct (readyState w s); try solve [repeat split; repeat constructor].
    destruct (Hmsg (client w) data) as (Hu & Hd & Hw). cbn [fst snd].
    rewrite Hu, Hd, Hw. repeat split; repeat constructor.
  - assert (Hclose : forall w',
              client w' = client w ->
              url (client (fst (onclose w'))) = url (client w)
              /\ reconnectDelay (client (fst (onclose w')))
                 = reconnectDelay (client w)
              /\ Forall (fun u => u = url (client w)) (urls (snd (onclose w')))
              /\ Forall (fun d => d = reconnectDelay (client w))
                        (delays (snd (onclose w')))
              /\ subsequence (written (snd (onclose w')))
                             (requested [Socket_close s])).
    { intros w' Hc. unfold onclose. rewrite Hc. cbn.
      destruct (onDisconnected (client w)) as [observer|]; cbn;
        [destruct (observer tt); cbn|];
        destruct (destroyed (client w)); cbn;
        repeat split; repeat constructor. }
    destruct (readyState w s);
      try (apply Hclose; reflexivity); repeat split; repeat constructor.
  - repeat split; repeat constructor.
  - destruct (is_pending w timer); [|repeat split; repeat constructor].
    unfold _connect. cbn. destruct (destroyed (client w)); cbn;
      [repeat split; repeat constructor|].
    destruct (accepts_url w); cbn; repeat split; repeat constructor.
Qed.

Lemma subsequence_app {A} (a a' b b' : list A) :
  subsequence a a' -> subsequence b b' -> subsequence (a ++ b) (a' ++ b').
Proof.
  induction 1; intros Hb; cbn; [exact Hb | apply subsequence_keep
                               | apply subsequence_drop]; auto.
Qed.

End TransportMore.

Lemma run_constants (JSON_parse : string -> option PlayGuardCommand)
    (inputs : list WSClient.Input) :
  forall w,
    let final := fst (WSClient.run JSON_parse w inputs) in
    let out := snd (WSClient.run JSON_parse w inputs) in
    WSClient.url (WSClient.client final) = WSClient.url (WSClient.client w)
    /\ WSClient.reconnectDelay (WSClient.client final)
       = WSClient.reconnectDelay (WSClient.client w)
    /\ Forall (fun u => u = WSClient.url (WSClient.client w))
              (WSClient.urls out)
    /\ Forall (fun d => d = WSClient.reconnectDelay (WSClient.client w))
              (WSClient.delays out)
    /\ WSClient.subsequence (WSClient.written out)
                            (WSClient.requested inputs).
Proof.
  induction inputs as [|i rest IH]; intros w; cbn.
  - repeat split; constructor.
  - destruct (step_constants JSON_parse w i) as (Hu & Hd & Hus & Hds & Hw).
    destruct (WSClient.step JSON_parse w i) as [w1 out1].
    cbn [fst snd] in *.
    destruct (IH w1) as (IHu & IHd & IHus & IHds & IHw).
    destruct (WSClient.run JSON_parse w1 rest) as [w2 out2].
    cbn [fst snd] in *. rewrite Hu in IHu, IHus. rewrite Hd in IHd, IHds.
    unfold WSClient.urls, WSClient.delays, WSClient.written in *.
    rewrite !flat_map_app.
    unfold WSClient.requested in Hw. cbn [flat_map] in Hw.
    rewrite app_nil_r in Hw.
    repeat split; try assumption;
      try (apply Forall_app; split; assumption).
    apply subsequence_app; assumption.
Qed.

(** X15. The reconnect delay never grows and the address never changes:
    from any state and for any sequence of calls, socket events and
    timers, every timer the client schedules has the [reconnectDelay] it
    was built with and every socket it opens has its [url]. *)
Theorem reconnect_delay_is_constant :
  forall (JSON_parse : string -> option PlayGuardCommand)
         (w : WSClient.World) (inputs : list WSClient.Input),
    let out := snd (WSClient.run JSON_parse w inputs) in
    Forall (fun d => d = WSClient.reconnectDelay (WSClient.client w))
           (WSClient.delays out)
    /\ Forall (fun u => u = WSClient.url (WSClient.client w))
              (WSClient.urls out).
Proof.
  intros JSON_parse w inputs out. subst out.
  destruct (run_constants JSON_parse inputs w) as (_ & _ & Hu & Hd & _).
  split; assumption.
Qed.

(** X16. The transport is fire-and-forget: from any state and for any
    sequence of calls, socket events and timers, the payloads written to
    sockets are some of the payloads [send] was called with, each at most
    once and in the order of the calls.  Nothing is queued for later,
    repeated or made up. *)
Theorem written_payloads_were_sent :
  forall (JSON_parse : string -> option PlayGuardCommand)
         (w : WSClient.World) (inputs : list WSClient.Input),
    WSClient.subsequence
      (WSClient.written (snd (WSClient.run JSON_parse w inputs)))
      (WSClient.requested inputs).
Proof.
  intros JSON_parse w inputs.
  destruct (run_constants JSON_parse inputs w) as (_ & _ & _ & _ & Hw).
  exact Hw.
Qed.

Section ReconnectCycle.
Import WSClient.

Variable JSON_parse : string -> option PlayGuardCommand.

Lemma set_nth_nth {A} (l : list A) (n : nat) (a d : A) :
  (n < length l)%nat -> nth n (set_nth l n a) d = a.
Proof.
  revert n. induction l as [|b rest IH]; intros [|n] Hn; cbn in *;
    try lia; [reflexivity | apply IH; lia].
Qed.

Lemma set_nth_last {A} (l : list A) (a b : A) :
  set_nth (l ++ [a]) (length l) b = (l ++ [b])%list.
Proof. induction l as [|c rest IH]; cbn; [reflexivity | now rewrite IH]. Qed.

Lemma nth_last {A} (l : list A) (a d : A) : nth (length l) (l ++ [a]) d = a.
Proof. induction l as [|c rest IH]; cbn; [reflexivity | exact IH]. Qed.

Lemma not_closed_in_range (w : World) (s : Socket) :
  readyState w s <> CLOSED -> (s < length (sockets w))%nat.
Proof.
  intros Hopen. destruct (Nat.lt_ge_cases s (length (sockets w))) as [H|H];
    [exact H|]. unfold readyState in Hopen.
  rewrite nth_overflow in Hopen by exact H. congruence.
Qed.

(** The [close] event of a socket, on a client that is not destroyed and
    whose observer, if any, returns. *)
Lemma close_schedules (w : World) (s : Socket) :
  destroyed (client w) = false ->
  readyState w s <> CLOSED ->
  (forall observer, onDisconnected (client w) = Some observer ->
                    exists u, observer tt = Returns u) ->
  exists log,
    step JSON_parse w (Socket_close s)
    = ({| client := set_reconnectTimer
                      (set_ws (set_connected (client w) false) None)
                      (Some (timers w));
          sockets := set_nth (sockets w) s CLOSED;
          accepts_url := accepts_url w;
          pending := (pending w ++ [timers w])%list;
          timers := S (timers w) |},
       (log ++ [SetTimeout (timers w) (reconnectDelay (client w))])%list)
    /\ Forall (fun o => quiet o = true) log.
Proof.
  intros Hd Hopen Hobs. unfold step.
  assert (Hclose : exists log,
            onclose (set_readyState w s CLOSED)
            = ({| client := set_reconnectTimer
                              (set_ws (set_connected (client w) false) None)
                              (Some (timers w));
                  sockets := set_nth (sockets w) s CLOSED;
                  accepts_url := accepts_url w;
                  pending := (pending w ++ [timers w])%list;
                  timers := S (timers w) |},
               (log ++ [SetTimeout (timers w) (reconnectDelay (client w))])%list)
            /\ Forall (fun o => quiet o = true) log).
  { unfold onclose. cbn. rewrite Hd. cbn.
    destruct (onDisconnected (client w)) as [observer|] eqn:Hod.
    - destruct (Hobs observer eq_refl) as [u Hu]. rewrite Hu.
      exists [ConsoleLog "[PlayGuardSDK] Disconnected. Retrying...";
              CallOnDisconnected].
      split; [reflexivity | repeat constructor].
    - exists [ConsoleLog "[PlayGuardSDK] Disconnected. Retrying..."].
      split; [reflexivity | repeat constructor]. }
  destruct (readyState w s); try exact Hclose. congruence.
Qed.

End ReconnectCycle.

(** X17. Losing the connection is always retried.  On a client that is
    not destroyed and whose URL the browser accepts, the [close] event of
    a socket schedules one timer with the reconnect delay; when the timer
    comes due the client opens a new socket to the same URL; once that
    socket is open the client is connected again and [send] writes to the
    new socket. *)
Theorem close_then_timer_reconnects :
  forall (JSON_parse : string -> option PlayGuardCommand)
         (w : WSClient.World) (s : WSClient.Socket) (m : Message),
    WSClient.destroyed (WSClient.client w) = false ->
    WSClient.accepts_url w = true ->
    WSClient.readyState w s <> WSClient.CLOSED ->
    (forall observer,
        WSClient.onDisconnected (WSClient.client w) = Some observer ->
        exists u, observer tt = Returns u) ->
    let timer := WSClient.timers w in
    let fresh := length (WSClient.sockets w) in
    let after_close := WSClient.step JSON_parse w (WSClient.Socket_close s) in
    let result :=
      WSClient.run JSON_parse (fst after_close)
        [WSClient.Timer_due timer; WSClient.Socket_open fresh;
         WSClient.Call_send m] in
    WSClient.delays (snd after_close)
      = [WSClient.reconnectDelay (WSClient.client w)]
    /\ WSClient.isConnected (fst after_close) = false
    /\ WSClient.urls (snd result) = [WSClient.url (WSClient.client w)]
    /\ WSClient.delays (snd result) = []
    /\ WSClient.written (snd result) = [m]
    /\ In (WSClient.SocketSend fresh m) (snd result)
    /\ WSClient.isConnected (fst result) = true.
Proof.
  intros JSON_parse w s m Hd Hacc Hopen Hobs timer fresh after_close result.
  destruct (close_schedules JSON_parse w s Hd Hopen Hobs) as (log & Hstep & Hq).
  subst result after_close. rewrite Hstep. cbn [fst snd].
  assert (Hlog : WSClient.delays log = []).
  { clear - Hq. induction Hq as [|o rest Ho _ IH]; [reflexivity|].
    destruct o; try discriminate Ho; exact IH. }
  split.
  { unfold WSClient.delays in *. rewrite flat_map_app, Hlog. reflexivity. }
  split; [reflexivity|].
  cbn [WSClient.run WSClient.step].
  assert (Hpending :
            WSClient.is_pending
              {| WSClient.client :=
                   WSClient.set_reconnectTimer
                     (WSClient.set_ws
                        (WSClient.set_connected (WSClient.client w) false)
                        None) (Some (WSClient.timers w));
                 WSClient.sockets :=
                   WSClient.set_nth (WSClient.sockets w) s WSClient.CLOSED;
                 WSClient.accepts_url := WSClient.accepts_url w;
                 WSClient.pending :=
                   (WSClient.pending w ++ [WSClient.timers w])%list;
                 WSClient.timers := S (WSClient.timers w) |} timer = true).
  { unfold WSClient.is_pending. cbn. rewrite existsb_app. cbn.
    subst timer. rewrite Nat.eqb_refl. apply orb_true_iff. right. reflexivity. }
  rewrite Hpending. unfold WSClient._connect. cbn. rewrite Hd, Hacc.
  rewrite set_nth_length. fold fresh.
  unfold WSClient.readyState. cbn.
  replace fresh
    with (length (WSClient.set_nth (WSClient.sockets w) s WSClient.CLOSED))
    by apply set_nth_length.
  rewrite nth_last. cbn. rewrite set_nth_last.
  unfold WSClient.send, WSClient.readyState. cbn. rewrite nth_last. cbn.
  rewrite set_nth_length.
  destruct (WSClient.onConnected (WSClient.client w)); cbn;
    repeat split; auto.
Qed.

Lemma close_then_timer_reconnects_witness :
  let m := Event {| ev_event := "logMessage"; ev_data := VNull |} in
  let after_close :=
    WSClient.step Examples.parse_ping Examples.online
      (WSClient.Socket_close 0%nat) in
  let result :=
    WSClient.run Examples.parse_ping (fst after_close)
      [WSClient.Timer_due 0%nat; WSClient.Socket_open 1%nat;
       WSClient.Call_send m] in
  WSClient.delays (snd after_close) = [2000]
  /\ WSClient.isConnected (fst after_close) = false
  /\ WSClient.urls (snd result) = ["ws://localhost:9876"]
  /\ WSClient.delays (snd result) = []
  /\ WSClient.written (snd result) = [m]
  /\ In (WSClient.SocketSend 1%nat m) (snd result)
  /\ WSClient.isConnected (fst result) = true.
Proof.
  apply (close_then_timer_reconnects Examples.parse_ping Examples.online
           0%nat (Event {| ev_event := "logMessage"; ev_data := VNull |})).
  - reflexivity.
  - reflexivity.
  - discriminate.
  - intros observer Hobs. discriminate Hobs.
Defined.

(** X18. An [onDisconnected] observer that throws stops the [close]
    handler before it schedules the reconnect: the socket is forgotten
    and the client is marked disconnected, but no timer is set, so the
    connection is not retried. *)
Theorem throwing_observer_prevents_reconnect :
  forall (JSON_parse : string -> option PlayGuardCommand)
         (w : WSClient.World) (s : WSClient.Socket)
         (observer : unit -> outcome unit) (e : value),
    WSClient.readyState w s <> WSClient.CLOSED ->
    WSClient.onDisconnected (WSClient.client w) = Some observer ->
    observer tt = Throws e ->
    let after_close := WSClient.step JSON_parse w (WSClient.Socket_close s) in
    WSClient.delays (snd after_close) = []
    /\ WSClient.urls (snd after_close) = []
    /\ WSClient.pending (fst after_close) = WSClient.pending w
    /\ WSClient.reconnectTimer (WSClient.client (fst after_close))
       = WSClient.reconnectTimer (WSClient.client w)
    /\ WSClient.ws (WSClient.client (fst after_close)) = None
    /\ WSClient.isConnected (fst after_close) = false.
Proof.
  intros JSON_parse w s observer e Hopen Hobs Hthrow after_close.
  subst after_close. unfold WSClient.step.
  assert (Hclose : forall w',
            WSClient.client w' = WSClient.client w ->
            WSClient.pending w' = WSClient.pending w ->
            WSClient.delays (snd (WSClient.onclose w')) = []
            /\ WSClient.urls (snd (WSClient.onclose w')) = []
            /\ WSClient.pending (fst (WSClient.onclose w'))
               = WSClient.pending w
            /\ WSClient.reconnectTimer
                 (WSClient.client (fst (WSClient.onclose w')))
               = WSClient.reconnectTimer (WSClient.client w)
            /\ WSClient.ws (WSClient.client (fst (WSClient.onclose w')))
               = None
            /\ WSClient.isConnected (fst (WSClient.onclose w')) = false).
  { intros w' Hc Hp. unfold WSClient.onclose. rewrite Hc. cbn.
    rewrite Hobs, Hthrow. cbn. repeat split; auto. }
  destruct (WSClient.readyState w s);
    try (apply Hclose; reflexivity). congruence.
Qed.

Lemma throwing_observer_prevents_reconnect_witness :
  let after_close :=
    WSClient.step Examples.parse_ping Examples.watched
      (WSClient.Socket_close 0%nat) in
  WSClient.delays (snd after_close) = []
  /\ WSClient.urls (snd after_close) = []
  /\ WSClient.pending (fst after_close) = []
  /\ WSClient.reconnectTimer (WSClient.client (fst after_close)) = None
  /\ WSClient.ws (WSClient.client (fst after_close)) = None
  /\ WSClient.isConnected (fst after_close) = false.
Proof.
  apply (throwing_observer_prevents_reconnect Examples.parse_ping
           Examples.watched 0%nat
           (fun _ => Throws (VStr "TypeError: banner is null"))
           (VStr "TypeError: banner is null")).
  - discriminate.
  - reflexivity.
  - reflexivity.
Defined.

Section Connecting.
Import WSClient.

Variable JSON_parse : string -> option PlayGuardCommand.

(** The states in which [connect()] has nothing to do or cannot do it. *)
Local Abbreviation settled w :=
  (ws (client w) <> None \/ destroyed (client w) = true
   \/ accepts_url w = false).

Lemma connect_settles (w : World) :
  settled (fst (connect w))
  /\ (length (urls (snd (connect w))) <= 1)%nat
  /\ delays (snd (connect w)) = [].
Proof.
  unfold connect, _connect.
  destruct (ws (client w)) eqn:Hws; cbn.
  - rewrite Hws. repeat split; auto. left. discriminate.
  - destruct (destroyed (client w)) eqn:Hd; cbn; [repeat split; auto|].
    destruct (accepts_url w) eqn:Hacc; cbn; repeat split; auto.
    left. discriminate.
Qed.

Lemma connect_settled (w : World) :
  settled w ->
  fst (connect w) = w /\ urls (snd (connect w)) = []
  /\ delays (snd (connect w)) = [].
Proof.
  unfold connect, _connect. intros [Hws|[Hd|Hacc]].
  - destruct (ws (client w)); [repeat split | congruence].
  - destruct (ws (client w)); [repeat split|]. rewrite Hd. repeat split.
  - destruct (ws (client w)); [repeat split|].
    destruct (destroyed (client w)); [repeat split|].
    rewrite Hacc. repeat split.
Qed.

End Connecting.

(** X19. [connect()] opens at most one socket however often it is
    called: from any state, any number of [connect()] calls in a row
    opens at most one socket and schedules no timer.  When the browser
    refuses the URL the calls open nothing, and nothing is scheduled to
    try again. *)
Theorem repeated_connect_opens_one_socket :
  forall (JSON_parse : string -> option PlayGuardCommand)
         (n : nat) (w : WSClient.World),
    let out := snd (WSClient.run JSON_parse w
                      (repeat WSClient.Call_connect n)) in
    (length (WSClient.urls out) <= 1)%nat
    /\ WSClient.delays out = []
    /\ (WSClient.accepts_url w = false -> WSClient.urls out = []).
Proof.
  intros JSON_parse n w out. subst out.
  assert (Hsettled : forall k w',
            (WSClient.ws (WSClient.client w') <> None
             \/ WSClient.destroyed (WSClient.client w') = true
             \/ WSClient.accepts_url w' = false) ->
            WSClient.urls (snd (WSClient.run JSON_parse w'
                                  (repeat WSClient.Call_connect k))) = []
            /\ WSClient.delays (snd (WSClient.run JSON_parse w'
                                       (repeat WSClient.Call_connect k)))
               = []).
  { induction k as [|k IH]; intros w' Hw'; [split; reflexivity|].
    cbn [repeat WSClient.run WSClient.step].
    destruct (connect_settled w' Hw') as (Hsame & Hu & Hd).
    destruct (WSClient.connect w') as [w1 out1]. cbn [fst snd] in *.
    subst w1. destruct (IH w' Hw') as (IHu & IHd).
    destruct (WSClient.run JSON_parse w' _) as [w2 out2].
    cbn [fst snd] in *. unfold WSClient.urls, WSClient.delays in *.
    rewrite !flat_map_app, Hu, Hd, IHu, IHd. split; reflexivity. }
  destruct n as [|n].
  - cbn. repeat split; auto.
  - cbn [repeat WSClient.run WSClient.step].
    destruct (connect_settles w) as (Hw1 & Hone & Hd).
    assert (Hrefused : WSClient.accepts_url w = false ->
                       WSClient.urls (snd (WSClient.connect w)) = []).
    { intros Hacc. apply connect_settled. right. right. exact Hacc. }
    destruct (WSClient.connect w) as [w1 out1]. cbn [fst snd] in *.
    destruct (Hsettled n w1 Hw1) as (IHu & IHd).
    destruct (WSClient.run JSON_parse w1 _) as [w2 out2].
    cbn [fst snd] in *. unfold WSClient.urls, WSClient.delays in *.
    rewrite !flat_map_app, IHu, IHd, Hd, !app_nil_r.
    repeat split; auto.
Qed.

Lemma repeated_connect_opens_one_socket_witness :
  WSClient.urls
    (snd (WSClient.run Examples.parse_ping (Examples.fresh_browser false)
            (repeat WSClient.Call_connect 3))) = [].
Proof.
  apply (repeated_connect_opens_one_socket Examples.parse_ping 3
           (Examples.fresh_browser false)).
  reflexivity.
Defined.

(** Three calls on a new client open one socket; with a URL the browser
    refuses each call logs the error of the constructor. *)
Example connect_three_times :
  snd (WSClient.run Examples.parse_ping (Examples.fresh_browser true)
         (repeat WSClient.Call_connect 3))
  = [WSClient.NewWebSocket 0%nat "ws://localhost:9876"]
  /\ snd (WSClient.run Examples.parse_ping (Examples.fresh_browser false)
            (repeat WSClient.Call_connect 3))
     = [WSClient.ConsoleError "[PlayGuardSDK] WebSocket constructor error:";
        WSClient.ConsoleError "[PlayGuardSDK] WebSocket constructor error:";
        WSClient.ConsoleError "[PlayGuardSDK] WebSocket constructor error:"].
Proof. split; reflexivity. Qed.

(** ** Inbound frames, continued *)

Lemma split_newline_nonempty (data : string) : split_newline data <> [].
Proof.
  destruct data as [|ch rest]; cbn; [discriminate|].
  destruct (Ascii.eqb ch newline); [discriminate|].
  destruct (split_newline rest); discriminate.
Qed.

Lemma split_newline_app (a b : string) :
  split_newline (a ++ String newline b)
  = (split_newline a ++ split_newline b)%list.
Proof.
  induction a as [|ch rest IH]; cbn.
  - reflexivity.
  - rewrite IH. destruct (Ascii.eqb ch newline); [reflexivity|].
    pose proof (split_newline_nonempty rest) as Hne.
    destruct (split_newline rest) as [|piece pieces]; [congruence|].
    reflexivity.
Qed.

(** X20. Frames can be batched: a frame made of two frames joined by a
    newline is handled exactly as the first frame followed by the second,
    whatever the lines hold and whatever the handler does. *)
Theorem onmessage_joined_frames :
  forall (JSON_parse : string -> option PlayGuardCommand)
         (c : WSClient.t) (first second : string),
    WSClient.onmessage JSON_parse c (first ++ String newline second)
    = (WSClient.onmessage JSON_parse c first
       ++ WSClient.onmessage JSON_parse c second)%list.
Proof.
  intros JSON_parse c first second. unfold WSClient.onmessage.
  rewrite split_newline_app. apply flat_map_app.
Qed.



(** ** Notifications *)

(** [notifyCall] sends exactly one message, the event [functionCalled]
    that carries the name, the arguments and a label, and reads nothing
    from the registry.  Leaving [args] out and passing an empty array
    give the same event, with the label [name()] and [args: []]; with
    arguments the label lists [String] of each, separated by a comma and
    a space. *)
Lemma notifyCall_event :
  forall (Number_toString : Q -> string) (sdk : PlayGuardSDK.t)
         (name : string) (args : option (list value)),
    let items := match args with Some items => items | None => [] end in
    let label :=
      match items with
      | [] => name ++ "()"
      | _ :: _ => name ++ "("
                  ++ join ", " (map (String_ Number_toString) items) ++ ")"
      end in
    PlayGuardSDK.notifyCall Number_toString sdk name args
    = ([PlayGuardSDK.WsSend
          (Event {| ev_event := "functionCalled";
                    ev_data := VObj [("fn", VStr name);
                                     ("args", VArr items);
                                     ("label", VStr label)] |})],
       Returns tt)
    /\ PlayGuardSDK.notifyCall Number_toString sdk name None
       = PlayGuardSDK.notifyCall Number_toString PlayGuardSDK.empty name
           (Some []).
Proof.
  intros nts sdk name args items label. subst items label. split.
  - destruct args as [[|a rest]|]; reflexivity.
  - reflexivity.
Qed.

(** The label of a call with two arguments. *)
Example notifyCall_label :
  PlayGuardSDK.events
    (PlayGuardSDK.trace
       (PlayGuardSDK.notifyCall Examples.digits Examples.game "addCoins"
          (Some [VNum 1; VStr "gold"])))
  = [{| ev_event := "functionCalled";
        ev_data := VObj [("fn", VStr "addCoins");
                         ("args", VArr [VNum 1; VStr "gold"]);
                         ("label", VStr "addCoins(1, gold)")] |}].
Proof. reflexivity. Qed.

(** ** From the socket to the dispatcher and back *)

(** The three cases of a line of a frame. *)
Lemma onmessage_line_blank (JSON_parse : string -> option PlayGuardCommand)
      (c : WSClient.t) (line : string) :
  WSClient.blank line = true ->
  WSClient.onmessage_line JSON_parse c line = [].
Proof.
  unfold WSClient.onmessage_line, WSClient.blank. intros ->. reflexivity.
Qed.

Lemma onmessage_line_parsed (JSON_parse : string -> option PlayGuardCommand)
      (c : WSClient.t) (line : string) (cmd : PlayGuardCommand) :
  WSClient.blank line = false ->
  JSON_parse line = Some cmd ->
  WSClient.onmessage_line JSON_parse c line =
  match WSClient.onMessage c with
  | Some handler =>
      WSClient.CallOnMessage cmd ::
      match handler cmd with
      | Returns _ => []
      | Throws _ =>
          [WSClient.ConsoleWarn "[PlayGuardSDK] Failed to parse message:" line]
      end
  | None => []
  end.
Proof.
  unfold WSClient.onmessage_line, WSClient.blank. intros -> ->. reflexivity.
Qed.

Lemma onmessage_line_malformed (JSON_parse : string -> option PlayGuardCommand)
      (c : WSClient.t) (line : string) :
  WSClient.blank line = false ->
  JSON_parse line = None ->
  WSClient.onmessage_line JSON_parse c line =
  [WSClient.ConsoleWarn "[PlayGuardSDK] Failed to parse message:" line].
Proof.
  unfold WSClient.onmessage_line, WSClient.blank. intros -> ->. reflexivity.
Qed.

Section BridgeProofs.

Variable Number_toString : Q -> string.
Variable doc : PlayGuardSDK.Document.
Variable JSON_parse : string -> option PlayGuardCommand.
Variable w : WSClient.World.
Variable sdk : PlayGuardSDK.t.
Variable s : WSClient.Socket.

Hypothesis current : WSClient.ws (WSClient.client w) = Some s.
Hypothesis open : WSClient.readyState w s = WSClient.OPEN.
Hypothesis wired :
  WSClient.onMessage (WSClient.client w) = Some Bridge.onMessage.

Local Abbreviation handle cmd :=
  (PlayGuardSDK.handleCommand Number_toString doc sdk cmd).

(** On an open socket every message of a trace is written, to that
    socket. *)
Lemma transmit_open (tr : list PlayGuardSDK.Effect) :
  Bridge.transmit w tr = map (WSClient.SocketSend s) (PlayGuardSDK.sent tr).
Proof.
  unfold Bridge.transmit.
  induction (PlayGuardSDK.sent tr) as [|m rest IH]; [reflexivity|].
  cbn [flat_map map]. rewrite IH. unfold WSClient.send.
  rewrite current, open. reflexivity.
Qed.

(** A command handled without a call into the host application is
    answered. *)
Lemma quiet_command_answered (cmd : PlayGuardCommand) :
  Forall (fun e => PlayGuardSDK.runs_host_code e = false)
         (PlayGuardSDK.trace (handle cmd)) ->
  exists r,
    PlayGuardSDK.sent (PlayGuardSDK.trace (handle cmd)) = [Response r]
    /\ PlayGuardSDK.answers cmd r.
Proof.
  intros Hquiet.
  destruct (handleCommand_dichotomy Number_toString doc sdk cmd)
    as [(r & Hsent & Hr & _) | (e & n & _ & _ & Hread & _)].
  - exists r. split; assumption.
  - rewrite Forall_forall in Hquiet. specialize (Hquiet _ Hread).
    discriminate Hquiet.
Qed.

(** The outputs of the frame, line by line. *)
Lemma on_frame_lines (lines : list string) :
  (forall line cmd,
      In line lines -> WSClient.blank line = false ->
      JSON_parse line = Some cmd ->
      Forall (fun e => PlayGuardSDK.runs_host_code e = false)
             (PlayGuardSDK.trace (handle cmd))) ->
  let out :=
    flat_map (fun o =>
                match o with
                | WSClient.CallOnMessage cmd =>
                    o :: Bridge.transmit w (PlayGuardSDK.trace (handle cmd))
                | _ => [o]
                end)
             (flat_map (WSClient.onmessage_line JSON_parse (WSClient.client w))
                       lines) in
  Forall2 (fun cmd m => exists r, m = Response r /\ PlayGuardSDK.answers cmd r)
          (WSClient.delivered
             (flat_map (WSClient.onmessage_line JSON_parse
                          (WSClient.client w)) lines))
          (WSClient.written out)
  /\ (forall s' m, In (WSClient.SocketSend s' m) out -> s' = s).
Proof.
  induction lines as [|line rest IH]; intros Hquiet; cbn zeta.
  - split; [constructor | intros s' m []].
  - destruct IH as (IHanswers & IHsocket).
    { intros l cmd Hin. apply Hquiet. now right. }
    cbn [flat_map]. unfold WSClient.delivered, WSClient.written in *.
    rewrite !flat_map_app.
    destruct (WSClient.blank line) eqn:Hblank.
    { rewrite (onmessage_line_blank JSON_parse (WSClient.client w) line Hblank).
      split; assumption. }
    destruct (JSON_parse line) as [cmd|] eqn:Hparse.
    + rewrite (onmessage_line_parsed JSON_parse (WSClient.client w) line cmd
                 Hblank Hparse), wired.
      unfold Bridge.onMessage. cbn [flat_map app].
      destruct (quiet_command_answered cmd) as (r & Hsent & Hr).
      { apply (Hquiet line cmd); [now left | exact Hblank | exact Hparse]. }
      rewrite transmit_open, Hsent. cbn [map flat_map app]. split.
      * constructor; [exists r; split; [reflexivity | exact Hr]|].
        exact IHanswers.
      * intros s' m [Habs|[Hm|Hin]]; [discriminate Habs | congruence|].
        exact (IHsocket s' m Hin).
    + rewrite (onmessage_line_malformed JSON_parse (WSClient.client w) line
                 Hblank Hparse).
      cbn [flat_map app]. split; [exact IHanswers|].
      intros s' m [Habs|Hin]; [discriminate Habs|].
      exact (IHsocket s' m Hin).
Qed.

End BridgeProofs.

(** X22. From the socket to the dispatcher and back.  A frame arrives
    on the client's socket, which is open, and every command in it is
    one the dispatcher handles without calling into the host application
    (a ping, a list, an unknown command, a name that is not registered).
    Then for each well-formed line, in order, exactly one response is
    written, to that same socket, and it echoes the [id] and [command] of
    its line; blank and malformed lines get no response. *)
Theorem frame_of_commands_is_answered_in_order :
  forall (Number_toString : Q -> string) (doc : PlayGuardSDK.Document)
         (JSON_parse : string -> option PlayGuardCommand)
         (w : WSClient.World) (sdk : PlayGuardSDK.t)
         (s : WSClient.Socket) (data : string),
    WSClient.ws (WSClient.client w) = Some s ->
    WSClient.readyState w s = WSClient.OPEN ->
    WSClient.onMessage (WSClient.client w) = Some Bridge.onMessage ->
    (forall line cmd,
        In line (split_newline data) -> WSClient.blank line = false ->
        JSON_parse line = Some cmd ->
        Forall (fun e => PlayGuardSDK.runs_host_code e = false)
               (PlayGuardSDK.trace
                  (PlayGuardSDK.handleCommand Number_toString doc sdk cmd))) ->
    let out := Bridge.on_frame Number_toString doc JSON_parse w sdk data in
    Forall2 (fun cmd m =>
               exists r, m = Response r /\ PlayGuardSDK.answers cmd r)
            (WSClient.delivered
               (WSClient.onmessage JSON_parse (WSClient.client w) data))
            (WSClient.written out)
    /\ (forall s' m, In (WSClient.SocketSend s' m) out -> s' = s).
Proof.
  intros nts doc JSON_parse w sdk s data Hws Hopen Hwired Hquiet out.
  subst out. unfold Bridge.on_frame, WSClient.onmessage.
  apply (on_frame_lines nts doc JSON_parse w sdk s Hws Hopen Hwired
           (split_newline data) Hquiet).
Qed.

Lemma frame_of_commands_is_answered_in_order_witness :
  let data :=
    Examples.lines [Examples.ping_text; ""; "{oops"; Examples.ping_text] in
  let out :=
    Bridge.on_frame Examples.digits Examples.page Examples.parse_ping
                    Examples.online Examples.game data in
  Forall2 (fun cmd m =>
             exists r, m = Response r /\ PlayGuardSDK.answers cmd r)
          (WSClient.delivered
             (WSClient.onmessage Examples.parse_ping
                (WSClient.client Examples.online) data))
          (WSClient.written out)
  /\ (forall s' m, In (WSClient.SocketSend s' m) out -> s' = 0%nat).
Proof.
  apply (frame_of_commands_is_answered_in_order
           Examples.digits Examples.page Examples.parse_ping
           Examples.online Examples.game 0%nat
           (Examples.lines
              [Examples.ping_text; ""; "{oops"; Examples.ping_text])).
  - reflexivity.
  - reflexivity.
  - reflexivity.
  - intros line cmd _ _ Hparse. unfold Examples.parse_ping in Hparse.
    destruct (String.eqb (trim line) Examples.ping_text);
      [|discriminate Hparse].
    injection Hparse as <-. vm_compute. repeat constructor.
Defined.

(** The frame above: two pings are delivered and two responses written;
    the empty line and the malformed line are answered by nothing. *)
Example frame_of_two_pings :
  let out :=
    Bridge.on_frame Examples.digits Examples.page Examples.parse_ping
      Examples.online Examples.game
      (Examples.lines [Examples.ping_text; ""; "{oops"; Examples.ping_text]) in
  length (WSClient.written out) = 2%nat
  /\ WSClient.warned out = ["{oops"].
Proof. split; reflexivity. Qed.

(** ** An explicit [connect()] while a reconnect is pending *)

Lemma nth_before_last {A} (l : list A) (a b d : A) :
  nth (length l) ((l ++ [a]) ++ [b]) d = a.
Proof. induction l as [|c rest IH]; cbn; [reflexivity | exact IH]. Qed.

Lemma nth_last_of_two {A} (l : list A) (a b d : A) :
  nth (S (length l)) ((l ++ [a]) ++ [b]) d = b.
Proof. induction l as [|c rest IH]; cbn; [reflexivity | exact IH]. Qed.

Lemma set_nth_last_of_two {A} (l : list A) (a b c : A) :
  WSClient.set_nth ((l ++ [a]) ++ [b]) (S (length l)) c
  = ((l ++ [a]) ++ [c])%list.
Proof. induction l as [|e rest IH]; cbn; [reflexivity | now rewrite IH]. Qed.

Lemma set_nth_before_last {A} (l : list A) (a b c : A) :
  WSClient.set_nth ((l ++ [a]) ++ [b]) (length l) c
  = ((l ++ [c]) ++ [b])%list.
Proof. induction l as [|e rest IH]; cbn; [reflexivity | now rewrite IH]. Qed.

(** X23. [connect()] does not cancel a pending reconnect, and [onclose]
    does not look at which socket closed.  On a client that has no
    socket, is not destroyed and has a reconnect timer pending, a call of
    [connect()] opens a socket, and the timer, when it comes due, opens a
    second one that replaces it in [this.ws]; both have the handlers of
    the client.  When the second socket is open and the first one then
    closes, the client drops the second: [isConnected()] is false and
    [send] writes nothing, although the second socket is still open. *)
Theorem connect_does_not_cancel_reconnect :
  forall (JSON_parse : string -> option PlayGuardCommand)
         (w : WSClient.World) (timer : WSClient.Timer) (m : Message),
    WSClient.destroyed (WSClient.client w) = false ->
    WSClient.ws (WSClient.client w) = None ->
    WSClient.accepts_url w = true ->
    WSClient.is_pending w timer = true ->
    let first := length (WSClient.sockets w) in
    let second := S first in
    let two :=
      WSClient.run JSON_parse w
        [WSClient.Call_connect; WSClient.Timer_due timer] in
    let result :=
      WSClient.run JSON_parse (fst two)
        [WSClient.Socket_open second; WSClient.Socket_close first;
         WSClient.Call_send m] in
    snd two = [WSClient.NewWebSocket first (WSClient.url (WSClient.client w));
               WSClient.NewWebSocket second (WSClient.url (WSClient.client w))]
    /\ WSClient.ws (WSClient.client (fst two)) = Some second
    /\ WSClient.readyState (fst two) first = WSClient.CONNECTING
    /\ WSClient.readyState (fst two) second = WSClient.CONNECTING
    /\ WSClient.readyState (fst result) second = WSClient.OPEN
    /\ WSClient.ws (WSClient.client (fst result)) = None
    /\ WSClient.isConnected (fst result) = false
    /\ WSClient.written (snd result) = [].
Proof.
  intros JSON_parse [c socks acc pend tm] timer m Hd Hws Hacc Hpend.
  destruct c as [ws url delay rt conn dest onM onC onD].
  cbn in Hd, Hws, Hacc. subst dest ws acc.
  cbn zeta. cbn [WSClient.sockets WSClient.client WSClient.url].
  set (c2 := {| WSClient.ws := Some (S (length socks));
                WSClient.url := url; WSClient.reconnectDelay := delay;
                WSClient.reconnectTimer := rt; WSClient.connected := conn;
                WSClient.destroyed := false; WSClient.onMessage := onM;
                WSClient.onConnected := onC;
                WSClient.onDisconnected := onD |}).
  set (start := {| WSClient.client := _ |}).
  assert (Htwo :
            WSClient.run JSON_parse start
              [WSClient.Call_connect; WSClient.Timer_due timer]
            = ({| WSClient.client := c2;
                  WSClient.sockets :=
                    ((socks ++ [WSClient.CONNECTING])
                       ++ [WSClient.CONNECTING])%list;
                  WSClient.accepts_url := true;
                  WSClient.pending := WSClient.remove_timer timer pend;
                  WSClient.timers := tm |},
               [WSClient.NewWebSocket (length socks) url;
                WSClient.NewWebSocket (S (length socks)) url])).
  { subst start c2. cbn [WSClient.run WSClient.step].
    unfold WSClient.connect, WSClient._connect at 1.
    cbn [WSClient.client WSClient.ws WSClient.destroyed WSClient.accepts_url
         WSClient.sockets WSClient.url WSClient.pending WSClient.timers].
    unfold WSClient.is_pending in *.
    cbn [WSClient.pending] in *. rewrite Hpend.
    unfold WSClient._connect, WSClient.set_ws.
    cbn [WSClient.client WSClient.ws WSClient.destroyed WSClient.accepts_url
         WSClient.sockets WSClient.url WSClient.pending WSClient.timers
         WSClient.reconnectDelay WSClient.reconnectTimer WSClient.connected
         WSClient.onMessage WSClient.onConnected WSClient.onDisconnected
         app].
    rewrite length_app. cbn [length]. rewrite Nat.add_1_r. reflexivity. }
  rewrite Htwo. clear Htwo. cbn [fst snd].
  split; [reflexivity|]. split; [reflexivity|].
  unfold WSClient.readyState at 1 2. cbn [WSClient.sockets].
  split; [apply nth_before_last|]. split; [apply nth_last_of_two|].
  set (w2 := {| WSClient.client := c2 |}).
  set (w3 := {| WSClient.client := WSClient.set_connected c2 true;
                WSClient.sockets :=
                  ((socks ++ [WSClient.CONNECTING]) ++ [WSClient.OPEN])%list;
                WSClient.accepts_url := true;
                WSClient.pending := WSClient.remove_timer timer pend;
                WSClient.timers := tm |}).
  assert (Hopen : exists log,
             WSClient.step JSON_parse w2
               (WSClient.Socket_open (S (length socks))) = (w3, log)
             /\ WSClient.written log = []).
  { subst w2 w3. cbn [WSClient.step]. unfold WSClient.readyState.
    cbn [WSClient.sockets]. rewrite nth_last_of_two.
    unfold WSClient.set_readyState, WSClient.onopen, WSClient.set_client.
    cbn [WSClient.sockets WSClient.client WSClient.accepts_url
         WSClient.pending WSClient.timers].
    rewrite set_nth_last_of_two. eexists. split; [reflexivity|].
    subst c2. cbn. destruct onC; reflexivity. }
  assert (Hclose : exists w4 log,
             WSClient.step JSON_parse w3
               (WSClient.Socket_close (length socks)) = (w4, log)
             /\ WSClient.written log = []
             /\ WSClient.ws (WSClient.client w4) = None
             /\ WSClient.connected (WSClient.client w4) = false
             /\ WSClient.sockets w4
                = ((socks ++ [WSClient.CLOSED]) ++ [WSClient.OPEN])%list).
  { subst w3. cbn [WSClient.step]. unfold WSClient.readyState.
    cbn [WSClient.sockets]. rewrite nth_before_last.
    unfold WSClient.set_readyState, WSClient.onclose, WSClient.set_client,
      WSClient.set_connected, WSClient.set_ws, WSClient.set_reconnectTimer.
    subst c2.
    cbn [WSClient.client WSClient.sockets WSClient.onDisconnected
         WSClient.destroyed WSClient.ws WSClient.connected negb
         WSClient.accepts_url WSClient.pending WSClient.timers
         WSClient.onConnected WSClient.url WSClient.reconnectDelay].
    rewrite set_nth_before_last.
    destruct onD as [observer|]; [destruct (observer tt)|];
      eexists; eexists; (split; [reflexivity|]); repeat split. }
  destruct Hopen as (log1 & Hopen & Hlog1).
  destruct Hclose as (w4 & log2 & Hclose & Hlog2 & Hws4 & Hconn4 & Hsocks4).
  cbn [WSClient.run]. rewrite Hopen, Hclose.
  unfold WSClient.step, WSClient.send. rewrite Hws4. cbn [fst snd].
  unfold WSClient.readyState, WSClient.isConnected, WSClient.written in *.
  rewrite Hsocks4, nth_last_of_two, !flat_map_app, Hlog1, Hlog2.
  repeat split; assumption.
Qed.

Lemma connect_does_not_cancel_reconnect_witness :
  let m := Event {| ev_event := "logMessage"; ev_data := VNull |} in
  let w :=
    fst (WSClient.step Examples.parse_ping Examples.online
           (WSClient.Socket_close 0%nat)) in
  let two :=
    WSClient.run Examples.parse_ping w
      [WSClient.Call_connect; WSClient.Timer_due 0%nat] in
  let result :=
    WSClient.run Examples.parse_ping (fst two)
      [WSClient.Socket_open 2%nat; WSClient.Socket_close 1%nat;
       WSClient.Call_send m] in
  snd two = [WSClient.NewWebSocket 1%nat "ws://localhost:9876";
             WSClient.NewWebSocket 2%nat "ws://localhost:9876"]
  /\ WSClient.ws (WSClient.client (fst two)) = Some 2%nat
  /\ WSClient.readyState (fst two) 1%nat = WSClient.CONNECTING
  /\ WSClient.readyState (fst two) 2%nat = WSClient.CONNECTING
  /\ WSClient.readyState (fst result) 2%nat = WSClient.OPEN
  /\ WSClient.ws (WSClient.client (fst result)) = None
  /\ WSClient.isConnected (fst result) = false
  /\ WSClient.written (snd result) = [].
Proof.
  apply (connect_does_not_cancel_reconnect Examples.parse_ping
           (fst (WSClient.step Examples.parse_ping Examples.online
                   (WSClient.Socket_close 0%nat)))
           0%nat (Event {| ev_event := "logMessage"; ev_data := VNull |}));
    reflexivity.
Defined.
